(** * lod tile cache: registry, tier orchestration and request handler

    Shallow embedding of [cache/cache.go] (package [cache]) and of the
    proxy endpoint handler that calls it, followed by the properties of
    the multi-tier cache.

    Conventions of the embedding
    - a Go [error] interface value is [option error] ([None] is [nil]);
    - a Go [[]byte] is [slice], an optional list of bytes ([None] is the
      nil slice, [Some []] an empty non-nil slice);
    - a Go pointer is an [option]; dereferencing [None] panics;
    - a function body is a computation in the monad [M], which threads the
      mutable state and distinguishes falling through to the next
      statement ([Next]), a [return] statement ([Return]) and a run-time
      panic ([Panic]);
    - a [go] statement appends a [Task] to the list of spawned goroutines;
      [run_task] is what the goroutine does once scheduled;
    - bigcache and go-redis are third-party: a tier is any type with the
      operations the code calls (classes [LocalTier] and [RemoteTier]);
    - a Go [float64] is a primitive binary64 [float]. *)

From Stdlib Require Import Floats ZArith String List Lia.
From Stdlib.Strings Require Import Byte.
From stdpp Require Import base option list gmap strings.

Local Open Scope string_scope.
Local Open Scope Z_scope.

(** ** Go values *)

(** The error values the code distinguishes: the two sentinels it compares
    against with [==], and every other error. *)
Inductive error : Type :=
| ErrEntryNotFound            (* bigcache.ErrEntryNotFound *)
| RedisNil                    (* redis.Nil *)
| ErrOther (msg : string).

#[global] Instance error_eq_dec : EqDecision error.
Proof. solve_decision. Defined.

Definition slice : Type := option (list byte).

Definition len (b : slice) : Z :=
  match b with
  | None => 0
  | Some l => Z.of_nat (length l)
  end.

Definition bytes_of (b : slice) : list byte :=
  match b with None => [] | Some l => l end.

(** Go's [append(a, b...)] on byte slices: nothing is allocated for a
    nil slice that receives no byte. *)
Definition go_append (a b : slice) : slice :=
  match a with
  | Some l => Some (l ++ bytes_of b)%list
  | None => if len b =? 0 then None else Some (bytes_of b)
  end.

Definition is_nil {A} (p : option A) : bool :=
  match p with None => true | Some _ => false end.

(** [type TilePacket []byte] *)
Definition TilePacket : Type := slice.

(** ** Configuration ([config.Proxy], consumed by the cache) *)

Record CacheConfig : Type := {
  MemEnabled : bool;
  MemTTLDuration : Z;
  MemCap : Z;
  RedisEnabled : bool;
  RedisURL : string;
  RedisTLS : bool;
  RedisTTLDuration : Z
}.

Record ProxyConfig : Type := {
  Name : string;
  TileURL : string;
  PCache : CacheConfig
}.

(** ** Logging ([util.DebugFlag], [util.Error]) *)

Inductive MsgCode : Type :=
| DCacheUp | DCacheMiss | DCacheMissExt | DCacheFail | DCacheHit | DCacheSet
| ECacheCreate | ECacheName | ECacheFetch | ECacheDelete | ECacheSet
| EBadRequest | EWrite.

Inductive LogArg : Type :=
| AStr (s : string)
| AInt (n : Z).

Inductive LogEntry : Type :=
| LogDebug (code : MsgCode) (args : list LogArg)
| LogError (code : MsgCode) (args : list LogArg).

(** ** The monad of function bodies *)

Inductive step (R A : Type) : Type :=
| Next (a : A)            (* control reaches the next statement *)
| Return (r : R)          (* a return statement was executed *)
| Panic (why : string).   (* run-time panic *)
Arguments Next {R A} a.
Arguments Return {R A} r.
Arguments Panic {R A} why.

Definition M (S R A : Type) : Type := S -> step R A * S.

Definition pure {S R A} (a : A) : M S R A := fun s => (Next a, s).

Definition bind {S R A B} (m : M S R A) (k : A -> M S R B) : M S R B :=
  fun s =>
    match m s with
    | (Next a, s') => k a s'
    | (Return r, s') => (Return r, s')
    | (Panic why, s') => (Panic why, s')
    end.

Definition return_ {S R A} (r : R) : M S R A := fun s => (Return r, s).
Definition panic {S R A} (why : string) : M S R A := fun s => (Panic why, s).
Definition gets {S R A} (f : S -> A) : M S R A := fun s => (Next (f s), s).
Definition modify {S R} (f : S -> S) : M S R unit := fun s => (Next tt, f s).

Notation "'let*' x := c 'in' k" := (bind c (fun x => k))
  (at level 10, x name, c at level 100, k at level 200, only parsing).
Notation "'let*' ' p := c 'in' k" := (bind c (fun x => match x with p => k end))
  (at level 10, p pattern, c at level 100, k at level 200, only parsing).
Notation "c ;; k" := (bind c (fun _ => k))
  (at level 100, k at level 200, only parsing).

(** What a caller of a function observes. *)
Inductive outcome (R : Type) : Type :=
| Ret (r : R)
| Panicked (why : string).
Arguments Ret {R} r.
Arguments Panicked {R} why.

(** Running a whole function body: falling off the end returns the value
    of the last statement. *)
Definition exec {S R} (body : M S R R) (s : S) : outcome R * S :=
  match body s with
  | (Next r, s') => (Ret r, s')
  | (Return r, s') => (Ret r, s')
  | (Panic why, s') => (Panicked why, s')
  end.

(** Calling a function from inside another body. *)
Definition call {S R R'} (body : M S R' R') : M S R R' :=
  fun s =>
    match exec body s with
    | (Ret r, s') => (Next r, s')
    | (Panicked why, s') => (Panic why, s')
    end.

(** Pointer dereference. *)
Definition deref {S R A} (what : string) (p : option A) : M S R A :=
  match p with
  | Some a => pure a
  | None => panic ("nil pointer dereference: " ++ what)
  end.

Definition error_Error (e : error) : string :=
  match e with
  | ErrEntryNotFound => "Entry not found"
  | RedisNil => "redis: nil"
  | ErrOther msg => msg
  end.

(** [err.Error()] on an interface value: a method call on the nil
    interface panics. *)
Definition Error_ {S R} (what : string) (err : option error) : M S R string :=
  let* e := deref what err in pure (error_Error e).

(** States that carry the process log. *)
Class HasLog (S : Type) : Type := add_log : LogEntry -> S -> S.

Definition DebugFlag {S X} `{!HasLog S} (code : MsgCode) (args : list LogArg)
  : M S X unit := modify (add_log (LogDebug code args)).
Definition Error {S X} `{!HasLog S} (code : MsgCode) (args : list LogArg)
  : M S X unit := modify (add_log (LogError code args)).

(** ** The storage tiers *)

(** The result of a Redis GET, [*redis.StringCmd]: [Err()] and [Bytes()]. *)
Record StringCmd : Type := {
  Err : option error;
  Bytes : slice * option error
}.

Record BigCacheConfig : Type := {
  LifeWindow : Z;
  StatsEnabled : bool;
  MaxEntrySize : Z;
  HardMaxCacheSize : Z
}.

Record RedisOptions : Type := {
  Addr : string;
  TLSMinVersion : option Z
}.

(** A library constructor returns either a usable value or an error; the
    Go caller sees the pair (pointer, error). *)
Definition go_pair {A} (r : A + error) : option A * option error :=
  match r with
  | inl a => (Some a, None)
  | inr e => (None, Some e)
  end.

(** The operations the cache calls on [*bigcache.BigCache]. *)
Class LocalTier (L : Type) : Type := {
  NewBigCache : BigCacheConfig -> L + error;
  bc_Get : L -> string -> slice * option error;
  bc_Set : L -> string -> slice -> L * option error;
  bc_Delete : L -> string -> L * option error;
  bc_Reset : L -> L * option error
}.

(** The operations the cache calls on [*redis.Client]. *)
Class RemoteTier (R : Type) : Type := {
  ParseURL : string -> RedisOptions + error;
  NewClient : RedisOptions -> R;
  rc_Ping : R -> option error;
  rc_Get : R -> string -> StringCmd;
  rc_Set : R -> string -> slice -> Z -> R * option error;
  rc_Del : R -> string -> R * option error;
  rc_Expire : R -> string -> Z -> R
}.

(** The TilePacket codec lives in another file of the package; the cache
    uses it through these operations only. *)
Class PacketCodec : Type := {
  Validate : TilePacket -> bool;
  Raw : TilePacket -> slice;
  Encode : string -> slice -> list (string * string) -> TilePacket;
  TileData : TilePacket -> slice;
  Headers : TilePacket -> list (string * string)
}.

(** ** Cache instances *)

Record Metrics : Type := {
  CacheHits : nat;      (* number of CacheHits.Inc() so far *)
  CacheMisses : nat     (* number of CacheMisses.Inc() so far *)
}.

(** [float64(n)] for an integer [n]: the nearest binary64 number, ties
    to even. *)
Definition float64_of (z : Z) : spec_float :=
  binary_normalize prec emax z 0 false.

(** Modelled from the spec: [util.GetMetricValue], the helper that reads
    a collector, is not in this file. The spec computes the hit rate
    from the hit and miss counters, so the reading of a counter is its
    value: the number of [Inc()] calls, which Prometheus keeps as an
    unsigned 64-bit integer, converted to [float64]. *)
Definition GetMetricValue (incs : nat) : float :=
  SF2Prim (float64_of (Z.of_nat incs mod 2 ^ 64)).

(** The closure [initMetrics] registers as [hit_rate] (lines 172-176),
    evaluated on the counters of an instance. *)
Definition HitRate (m : Metrics) : float :=
  let hits := GetMetricValue (CacheHits m) in
  let misses := GetMetricValue (CacheMisses m) in
  (hits / (hits + misses))%float.

(** The binary64 representation of a positive integer of at most 53
    bits: the integer shifted left to a mantissa of 53 bits. *)
Definition canon (c : positive) : spec_float :=
  S754_finite false
    (Z.to_pos (Z.pos c * 2 ^ (53 - Z.pos (digits2_pos c))))
    (Z.pos (digits2_pos c) - 53).

(** A shifted mantissa with nothing shifted out. *)
Definition exact_record (m : Z) : shr_record :=
  {| shr_m := m; shr_r := false; shr_s := false |}.

Record Cache (L R : Type) : Type := {
  internal : option L;
  external : option R;
  Proxy : ProxyConfig;
  CMetrics : Metrics
}.
Arguments internal {L R} _.
Arguments external {L R} _.
Arguments Proxy {L R} _.
Arguments CMetrics {L R} _.

(** Goroutines started by the cache. *)
Inductive Task : Type :=
| GoExpire (key : string) (ttl : Z)                    (* go c.external.Expire(..) *)
| GoSet (key : string) (tile : TilePacket) (internalOnly : list bool)
                                                       (* go c.Set(key, tile, ..) *)
| GoExternalSet (key : string) (tile : TilePacket).    (* go func() { c.external.Set(..) }() *)

(** The state a method of [*Cache] runs against: the instance, the
    request-local values of the fiber context, the goroutines spawned so
    far and the log. *)
Record St (L R : Type) : Type := {
  cache : Cache L R;
  locals : gmap string string;
  spawned : list Task;
  logs : list LogEntry
}.
Arguments cache {L R} _.
Arguments locals {L R} _.
Arguments spawned {L R} _.
Arguments logs {L R} _.

Section CacheMethods.
Context {L R : Type} `{!LocalTier L} `{!RemoteTier R} `{!PacketCodec}.

Definition with_cache (f : Cache L R -> Cache L R) (s : St L R) : St L R :=
  {| cache := f (cache s); locals := locals s;
     spawned := spawned s; logs := logs s |}.

Definition set_internal (i : L) : Cache L R -> Cache L R := fun c =>
  {| internal := Some i; external := external c;
     Proxy := Proxy c; CMetrics := CMetrics c |}.

Definition set_external (x : R) : Cache L R -> Cache L R := fun c =>
  {| internal := internal c; external := Some x;
     Proxy := Proxy c; CMetrics := CMetrics c |}.

Definition hits_Inc : Cache L R -> Cache L R := fun c =>
  {| internal := internal c; external := external c; Proxy := Proxy c;
     CMetrics := {| CacheHits := S (CacheHits (CMetrics c));
                    CacheMisses := CacheMisses (CMetrics c) |} |}.

Definition misses_Inc : Cache L R -> Cache L R := fun c =>
  {| internal := internal c; external := external c; Proxy := Proxy c;
     CMetrics := {| CacheHits := CacheHits (CMetrics c);
                    CacheMisses := S (CacheMisses (CMetrics c)) |} |}.

#[global] Instance St_log : HasLog (St L R) := fun e s =>
  {| cache := cache s; locals := locals s;
     spawned := spawned s; logs := logs s ++ [e] |}.

Definition add_task (t : Task) (s : St L R) : St L R :=
  {| cache := cache s; locals := locals s;
     spawned := spawned s ++ [t]; logs := logs s |}.

Definition set_local (k v : string) (s : St L R) : St L R :=
  {| cache := cache s; locals := <[k := v]> (locals s);
     spawned := spawned s; logs := logs s |}.

Definition go {X} (t : Task) : M (St L R) X unit := modify (add_task t).
Definition cfg {X} : M (St L R) X CacheConfig := gets (fun s => PCache (Proxy (cache s))).

(** [func (c *Cache) Invalidate(key string) error] *)
Definition Invalidate (key : string) : M (St L R) (option error) (option error) :=
  let* conf := cfg in
  (if MemEnabled conf then
     let* i := (let* p := gets (fun s => internal (cache s)) in deref "c.internal" p) in
     let '(i', err) := bc_Delete i key in
     modify (with_cache (set_internal i')) ;;
     match err with
     | Some e => if decide (e = ErrEntryNotFound) then pure tt else return_ (Some e)
     | None => pure tt
     end
   else pure tt) ;;
  (if RedisEnabled conf then
     let* x := (let* p := gets (fun s => external (cache s)) in deref "c.external" p) in
     let '(x', status_Err) := rc_Del x key in
     modify (with_cache (set_external x')) ;;
     match status_Err with
     | Some e => return_ (Some e)
     | None => pure tt
     end
   else pure tt) ;;
  return_ None.

(** [func (c *Cache) Set(key string, tile TilePacket, internalOnly ...bool)] *)
Definition Set_ (key : string) (tile : TilePacket) (internalOnly : list bool)
  : M (St L R) unit unit :=
  DebugFlag DCacheSet [AStr key; AInt (len tile)] ;;
  let* conf := cfg in
  (if (match internalOnly with [] => true | b :: _ => negb b end)
        && RedisEnabled conf
   then go (GoExternalSet key tile)
   else pure tt) ;;
  (if MemEnabled conf then
     let* i := (let* p := gets (fun s => internal (cache s)) in deref "c.internal" p) in
     let '(i', err) := bc_Set i key tile in
     modify (with_cache (set_internal i')) ;;
     match err with
     | Some e => Error ECacheSet [AStr key; AStr (error_Error e)]
     | None => pure tt
     end
   else pure tt).

(** [func (c *Cache) EncodeSet(key string, tileData []byte, headers map[string]string)] *)
Definition EncodeSet (key : string) (tileData : slice) (headers : list (string * string))
  : M (St L R) unit unit :=
  let packet := Encode key tileData headers in
  call (Set_ key packet []).

(** [func (c *Cache) Fetch(key string, ctx *fiber.Ctx) *TilePacket].
    The context is the [locals] component of the state; the variables
    [cachedTile], [err] and [hit] are threaded from block to block. *)
Definition Fetch (key : string) : M (St L R) (option TilePacket) (option TilePacket) :=
  let* conf := cfg in
  (* fetch from in-memory cache if enabled *)
  let* '(cachedTile, err, hit) :=
    (if MemEnabled conf then
       let* i := (let* p := gets (fun s => internal (cache s)) in deref "c.internal" p) in
       let '(cachedTile, err) := bc_Get i key in
       match err with
       | Some e =>
           if decide (e = ErrEntryNotFound)
           then DebugFlag DCacheMiss [AStr key]
           else Error ECacheFetch [AStr key; AStr (error_Error e)] ;;
                return_ None
       | None => pure tt
       end ;;
       pure (cachedTile, err, " :hit-i")
     else pure (None, None, "")) in
  (* try fetching from redis if not present in internal cache *)
  let* '(cachedTile, err, hit) :=
    (if is_nil cachedTile && RedisEnabled conf then
       let* x := (let* p := gets (fun s => external (cache s)) in deref "c.external" p) in
       let redisTile := rc_Get x key in
       match Err redisTile with
       | Some e =>
           if decide (e = RedisNil)
           then modify (with_cache misses_Inc) ;;
                DebugFlag DCacheMissExt [AStr key] ;;
                return_ None
           else let* msg := Error_ "err.Error()" err in
                Error ECacheFetch [AStr key; AStr msg] ;;
                return_ None
       | None => pure tt
       end ;;
       let '(cachedTile, err) := Bytes redisTile in
       match err with
       | Some e => Error ECacheFetch [AStr key; AStr (error_Error e)] ;;
                   return_ None
       | None => pure tt
       end ;;
       (if 0 <? RedisTTLDuration conf
        then go (GoExpire key (RedisTTLDuration conf))
        else pure tt) ;;
       pure (cachedTile, err, " :hit-e")
     else pure (cachedTile, err, hit)) in
  (* exit if we don't have anything cached at any level *)
  (if is_nil cachedTile then
     modify (with_cache misses_Inc) ;;
     DebugFlag DCacheMissExt [AStr key] ;;
     return_ None
   else pure tt) ;;
  modify (set_local "lod-cache" hit) ;;
  modify (with_cache hits_Inc) ;;
  let tile : TilePacket := cachedTile in
  (if (len tile =? 0) || negb (Validate tile) then
     DebugFlag DCacheFail [AStr key] ;;
     let* err := call (Invalidate key) in
     match err with
     | Some e => Error ECacheDelete [AStr key; AStr (error_Error e)]
     | None => pure tt
     end ;;
     return_ None
   else pure tt) ;;
  DebugFlag DCacheHit [AStr key; AInt (len tile)] ;;
  go (GoSet key cachedTile [true]) ;;
  return_ (Some tile).

(** [func (c *Cache) Flush() error] *)
Definition Flush : M (St L R) (option error) (option error) :=
  let* conf := cfg in
  (if MemEnabled conf then
     let* i := (let* p := gets (fun s => internal (cache s)) in deref "c.internal" p) in
     let '(i', err) := bc_Reset i in
     modify (with_cache (set_internal i')) ;;
     return_ err
   else pure tt) ;;
  return_ None.

(** What a spawned goroutine does when it runs. *)
Definition run_task (t : Task) : M (St L R) unit unit :=
  match t with
  | GoExpire key ttl =>
      let* x := (let* p := gets (fun s => external (cache s)) in deref "c.external" p) in
      modify (with_cache (set_external (rc_Expire x key ttl)))
  | GoSet key tile internalOnly => call (Set_ key tile internalOnly)
  | GoExternalSet key tile =>
      let* conf := cfg in
      let* x := (let* p := gets (fun s => external (cache s)) in deref "c.external" p) in
      let '(x', status_Err) := rc_Set x key (Raw tile) (RedisTTLDuration conf) in
      modify (with_cache (set_external x')) ;;
      match status_Err with
      | Some e => Error ECacheSet [AStr key; AStr (error_Error e)]
      | None => pure tt
      end
  end.

End CacheMethods.

(** ** The registry: package-level state and instance construction *)

(** A collector as the default Prometheus registry identifies it: the
    fully-qualified name parts and the constant [proxy] label. *)
Record Descriptor : Type := {
  dNamespace : string;
  dSubsystem : string;
  dName : string;
  dProxyLabel : string
}.

#[global] Instance Descriptor_eq_dec : EqDecision Descriptor.
Proof. solve_decision. Defined.

(** Package-level state of the process. [Caches] maps a proxy name to the
    address of its [Cache] struct; [heap] holds the structs allocated so
    far (address = index), so that two instances built for one name are
    two different addresses. [cacheLock] is [None] while the pointer is
    nil and [Some held] afterwards. *)
Record Proc (L R : Type) : Type := {
  Proxies : list ProxyConfig;       (* config.Get().Proxies *)
  Caches : gmap string nat;
  heap : list (Cache L R);
  cacheLock : option bool;
  registered : list Descriptor;     (* collectors in prometheus.DefaultRegisterer *)
  plogs : list LogEntry
}.
Arguments Proxies {L R} _.
Arguments Caches {L R} _.
Arguments heap {L R} _.
Arguments cacheLock {L R} _.
Arguments registered {L R} _.
Arguments plogs {L R} _.

(** Constants of the process environment. *)
Class Env : Type := {
  IsProd : bool;          (* env.IsProd() *)
  Namespace : string      (* config.Namespace *)
}.

(** [var Subsystem = "cache"] *)
Definition Subsystem : string := "cache".

(** [const OneMB = 1024 * 1024] *)
Definition OneMB : Z := 1024 * 1024.

(** Go [int] arithmetic on a 64-bit platform wraps around. *)
Definition wrap_int (z : Z) : Z := (z + 2 ^ 63) mod 2 ^ 64 - 2 ^ 63.

(** [tls.VersionTLS12] *)
Definition VersionTLS12 : Z := 771.

(** [bigcache.DefaultConfig(eviction)], restricted to the fields the
    cache sets afterwards. *)
Definition DefaultConfig (eviction : Z) : BigCacheConfig :=
  {| LifeWindow := eviction; StatsEnabled := false;
     MaxEntrySize := 500; HardMaxCacheSize := 0 |}.

Section Registry.
Context {L R : Type} `{!LocalTier L} `{!RemoteTier R} `{!PacketCodec} `{!Env}.

#[global] Instance Proc_log : HasLog (Proc L R) := fun e g =>
  {| Proxies := Proxies g;
     Caches := Caches g; heap := heap g; cacheLock := cacheLock g;
     registered := registered g; plogs := plogs g ++ [e] |}.

Definition set_lock (lk : option bool) (g : Proc L R) : Proc L R :=
  {| Proxies := Proxies g;
     Caches := Caches g; heap := heap g; cacheLock := lk;
     registered := registered g; plogs := plogs g |}.

Definition add_registered (d : Descriptor) (g : Proc L R) : Proc L R :=
  {| Proxies := Proxies g;
     Caches := Caches g; heap := heap g; cacheLock := cacheLock g;
     registered := registered g ++ [d]; plogs := plogs g |}.

(** [Caches[name] = &Cache{..}]: allocate the struct, store its address. *)
Definition store_new (name : string) (c : Cache L R) (g : Proc L R) : Proc L R :=
  {| Proxies := Proxies g;
     Caches := <[name := length (heap g)]> (Caches g);
     heap := heap g ++ [c]; cacheLock := cacheLock g;
     registered := registered g; plogs := plogs g |}.

(** [func initInternal(proxy config.Proxy)], returning the bigcache
    pointer and an error *)
Definition initInternal (proxy : ProxyConfig) : option L * option error :=
  let conf := DefaultConfig (MemTTLDuration (PCache proxy)) in
  let conf := {| LifeWindow := LifeWindow conf;
                 StatsEnabled := negb IsProd;
                 MaxEntrySize := 1024 * 10;
                 HardMaxCacheSize := wrap_int (OneMB * MemCap (PCache proxy)) |} in
  go_pair (NewBigCache conf).

(** Lines 129-133 of [initExternal]. *)
Definition with_tls (proxy : ProxyConfig) (opts : RedisOptions) : RedisOptions :=
  if RedisTLS (PCache proxy)
  then {| Addr := Addr opts; TLSMinVersion := Some VersionTLS12 |}
  else opts.

(** [func initExternal(proxy config.Proxy)], returning the redis client
    pointer and an error *)
Definition initExternal (proxy : ProxyConfig)
  : M (Proc L R) (option R * option error) (option R * option error) :=
  let '(opts, err) := go_pair (ParseURL (RedisURL (PCache proxy))) in
  match err with
  | Some e => Error ECacheCreate [AStr (error_Error e)] ;;
              return_ (None, Some e)
  | None => pure tt
  end ;;
  let* opts := deref "opts" opts in
  let opts := with_tls proxy opts in
  let external := NewClient opts in
  let err := rc_Ping external in
  return_ (Some external, err).

(** [promauto] registers the collector with the default registry and
    panics when registration fails; registering a descriptor that is
    already present is such a failure. *)
Definition promauto_register {X} (d : Descriptor) : M (Proc L R) X unit :=
  let* present := gets (fun g => bool_decide (d ∈ registered g)) in
  if (present : bool)
  then panic "duplicate metrics collector registration attempted"
  else modify (add_registered d).

(** [func initMetrics(proxy config.Proxy) *Metrics] *)
Definition initMetrics {X} (proxy : ProxyConfig) : M (Proc L R) X Metrics :=
  let desc n := {| dNamespace := Namespace; dSubsystem := Subsystem;
                   dName := n; dProxyLabel := Name proxy |} in
  promauto_register (desc "hit_total") ;;
  promauto_register (desc "miss_total") ;;
  promauto_register (desc "hit_rate") ;;
  pure {| CacheHits := 0; CacheMisses := 0 |}.

(** Lines 71-103 of [buildInstance]: the body of the loop for the
    entry whose name matches; every path through it returns. *)
Definition build_from (name : string) (proxy : ProxyConfig)
  : M (Proc L R) (option nat) unit :=
  let* internal :=
    (if MemEnabled (PCache proxy) then
       let '(internal, err) := initInternal proxy in
       match err with
       | Some e => Error ECacheCreate [AStr (error_Error e)] ;;
                   return_ None
       | None => pure internal
       end
     else pure None) in
  let* external :=
    (if RedisEnabled (PCache proxy) then
       let* '(external, err) := call (initExternal proxy) in
       match err with
       | Some e => Error ECacheCreate [AStr (error_Error e)] ;;
                   return_ None
       | None => pure external
       end
     else pure None) in
  (* initialize metrics for this cache instance *)
  let* metrics := initMetrics proxy in
  DebugFlag DCacheUp [AStr name] ;;
  modify (store_new name {| internal := internal; external := external;
                            Proxy := proxy; CMetrics := metrics |}) ;;
  let* p := gets (fun g => Caches g !! name) in
  return_ p.

(** The [for _, proxy := range config.Get().Proxies] loop. *)
Fixpoint buildInstance_loop (name : string) (proxies : list ProxyConfig)
  : M (Proc L R) (option nat) unit :=
  match proxies with
  | [] => pure tt
  | proxy :: rest =>
      if decide (Name proxy = name)
      then build_from name proxy
      else buildInstance_loop name rest
  end.

(** [cacheLock.Lock()]: a caller that finds the mutex held waits; a
    lone goroutine waiting on its own lock is a fatal deadlock. *)
Definition Lock {X} : M (Proc L R) X unit :=
  let* lk := gets cacheLock in
  match lk with
  | None => panic "nil pointer dereference: cacheLock"
  | Some true => panic "all goroutines are asleep - deadlock!"
  | Some false => modify (set_lock (Some true))
  end.

Definition Unlock (g : Proc L R) : Proc L R := set_lock (Some false) g.

(** [defer f()]: [f] runs when the body returns or panics. *)
Definition defer {S X A} (f : S -> S) (body : M S X A) : M S X A :=
  fun s => let '(r, s') := body s in (r, f s').

(** Lines 62-64 of [buildInstance]. *)
Definition lock_init {X} : M (Proc L R) X unit :=
  let* lk := gets cacheLock in
  if is_nil lk then modify (set_lock (Some false)) else pure tt.

(** Lines 68-108 of [buildInstance], with the deferred unlock. *)
Definition critical (name : string) : M (Proc L R) (option nat) (option nat) :=
  defer Unlock
    (let* proxies := gets Proxies in
     buildInstance_loop name proxies ;;
     (* if this happens, there's an edge case somewhere *)
     Error ECacheName [AStr name] ;;
     return_ None).

(** [func buildInstance(name string) *Cache] *)
Definition buildInstance (name : string) : M (Proc L R) (option nat) (option nat) :=
  lock_init ;;
  Lock ;;
  critical name.

(** [func Get(name string) *Cache] *)
Definition Get (name : string) : M (Proc L R) (option nat) (option nat) :=
  let* p := gets (fun g => Caches g !! name) in
  (if is_nil p then
     let* r := call (buildInstance name) in
     return_ r
   else pure tt) ;;
  let* p := gets (fun g => Caches g !! name) in
  return_ p.

(** *** Goroutines calling [Get] concurrently

    A goroutine executing [Get(name)] is at one of these points; one
    [thread_step] is one atomic action. The section under the mutex is
    a single action, since no other goroutine can be inside it. *)
Inductive pc : Type :=
| AtCheck                      (* line 53: about to test Caches[name] == nil *)
| AtLockInit                   (* line 62: about to test cacheLock == nil *)
| AtLock                       (* line 66: about to acquire the mutex *)
| InCritical                   (* line 68: holds the mutex *)
| Finished (r : option nat)    (* returned r *)
| Crashed (why : string).      (* panicked *)

(** The steps are parameterised by what runs under the mutex, so that
    the code's critical section can be compared with another one. *)
Definition thread_step_with
    (crit : string -> M (Proc L R) (option nat) (option nat))
    (name : string) (t : pc) (g : Proc L R) : pc * Proc L R :=
  match t with
  | AtCheck =>
      match Caches g !! name with
      | None => (AtLockInit, g)
      | Some p => (Finished (Some p), g)
      end
  | AtLockInit =>
      (AtLock, if is_nil (cacheLock g) then set_lock (Some false) g else g)
  | AtLock =>
      match cacheLock g with
      | Some false => (InCritical, set_lock (Some true) g)
      | _ => (AtLock, g)      (* blocked *)
      end
  | InCritical =>
      match exec (crit name) g with
      | (Ret r, g') => (Finished r, g')
      | (Panicked why, g') => (Crashed why, g')
      end
  | Finished _ | Crashed _ => (t, g)
  end.

(** The scheduler picks, at each step, which goroutine moves. *)
Definition sched_step_with
    (crit : string -> M (Proc L R) (option nat) (option nat))
    (name : string) (i : nat) (w : list pc * Proc L R)
  : list pc * Proc L R :=
  match fst w !! i with
  | None => w
  | Some t => let '(t', g') := thread_step_with crit name t (snd w) in
              (<[i := t']> (fst w), g')
  end.

Definition run_schedule_with
    (crit : string -> M (Proc L R) (option nat) (option nat))
    (name : string) (sched : list nat) (w : list pc * Proc L R)
  : list pc * Proc L R :=
  fold_left (fun w i => sched_step_with crit name i w) sched w.

(** The code: under the mutex, [critical]. *)
Definition run_schedule : string -> list nat -> list pc * Proc L R
                          -> list pc * Proc L R :=
  run_schedule_with critical.

(** The critical section as the specification words it ("re-check
    existence, and if still absent, scan the known proxy
    configurations"). This is not the code; it is here to be compared
    with [critical] on the same schedule. *)
Definition critical_rechecked (name : string)
  : M (Proc L R) (option nat) (option nat) :=
  defer Unlock
    (let* p := gets (fun g => Caches g !! name) in
     (if is_nil p then pure tt else return_ p) ;;
     let* proxies := gets Proxies in
     buildInstance_loop name proxies ;;
     Error ECacheName [AStr name] ;;
     return_ None).

(** An instance has every tier its configuration enables. *)
Definition complete (c : Cache L R) : Prop :=
  (MemEnabled (PCache (Proxy c)) = true -> is_nil (internal c) = false) /\
  (RedisEnabled (PCache (Proxy c)) = true -> is_nil (external c) = false).

End Registry.

(** ** The proxy endpoint handler (package [proxy]) *)

(** What the collaborators outside the cache yield for one request. *)
Record Request : Type := {
  req_tileUrl : string * option error;           (* buildTileUrl(p, ctx) *)
  req_cacheKey : string;                         (* helpers.BuildCacheKey(p, ctx) *)
  req_upstream : option error * slice;           (* proxy.Do(ctx, tileUrl): error, response body *)
  req_keptHeaders : list (string * string)       (* headers p.PopulateHeaders retains *)
}.

(** The parts of [*fiber.Ctx] the handler touches. *)
Record Ctx : Type := {
  ctx_locals : gmap string string;
  resp_status : Z;
  resp_body : slice;
  resp_headers : list (string * string)
}.

(** Goroutines pending in the process: those a cache instance spawned,
    and the handler's [go cache.Get(p.Name).EncodeSet(..)], whose receiver
    is evaluated by the handler before the goroutine starts. *)
Inductive PTask : Type :=
| OfCache (addr : nat) (t : Task)
| GoEncodeSet (receiver : option nat) (key : string) (tileData : slice)
              (headers : list (string * string)).

Record HSt (L R : Type) : Type := {
  proc : Proc L R;
  ctx : Ctx;
  pending : list PTask
}.
Arguments proc {L R} _.
Arguments ctx {L R} _.
Arguments pending {L R} _.

Section Handler.
Context {L R : Type} `{!LocalTier L} `{!RemoteTier R} `{!PacketCodec} `{!Env}.

#[global] Instance HSt_log : HasLog (HSt L R) := fun e h =>
  {| proc := add_log e (proc h); ctx := ctx h; pending := pending h |}.

(** Run a package-level function of [cache] from the handler. *)
Definition in_proc {X A} (body : M (Proc L R) A A) : M (HSt L R) X A :=
  fun h =>
    match exec body (proc h) with
    | (Ret a, g') => (Next a, {| proc := g'; ctx := ctx h; pending := pending h |})
    | (Panicked why, g') =>
        (Panic why, {| proc := g'; ctx := ctx h; pending := pending h |})
    end.

(** Call a method on a [*Cache]: the receiver is dereferenced by the
    first statement of the method; the struct is updated in place. *)
Definition on_cache {X A} (receiver : option nat) (body : M (St L R) A A)
  : M (HSt L R) X A :=
  let* addr := deref "c" receiver in
  let* c := (let* o := gets (fun h => heap (proc h) !! addr) in deref "c" o) in
  fun h =>
    let s := {| cache := c; locals := ctx_locals (ctx h);
                spawned := []; logs := plogs (proc h) |} in
    let '(r, s') := exec body s in
    let g := proc h in
    let h' :=
      {| proc := {| Proxies := Proxies g; Caches := Caches g;
                    heap := <[addr := cache s']> (heap g);
                    cacheLock := cacheLock g; registered := registered g;
                    plogs := logs s' |};
         ctx := {| ctx_locals := locals s'; resp_status := resp_status (ctx h);
                   resp_body := resp_body (ctx h);
                   resp_headers := resp_headers (ctx h) |};
         pending := pending h ++ map (OfCache addr) (spawned s') |} in
    match r with
    | Ret a => (Next a, h')
    | Panicked why => (Panic why, h')
    end.

Definition with_ctx (f : Ctx -> Ctx) (h : HSt L R) : HSt L R :=
  {| proc := proc h; ctx := f (ctx h); pending := pending h |}.

Definition Locals (k v : string) : Ctx -> Ctx := fun c =>
  {| ctx_locals := <[k := v]> (ctx_locals c); resp_status := resp_status c;
     resp_body := resp_body c; resp_headers := resp_headers c |}.

(** [utils.StatusMessage]: the reason phrase fiber has for a status
    code, for the codes this package sends. *)
Definition StatusMessage (code : Z) : string :=
  if code =? 204 then "No Content"
  else if code =? 400 then "Bad Request"
  else if code =? 500 then "Internal Server Error"
  else "".

(** [ctx.SendStatus(status)]: sets the status code and, when the
    response has no body yet, makes the reason phrase the body. The
    error it returns is nil. *)
Definition SendStatus (code : Z) : Ctx -> Ctx := fun c =>
  {| ctx_locals := ctx_locals c; resp_status := code;
     resp_body := if len (resp_body c) =? 0
                  then Some (list_byte_of_string (StatusMessage code))
                  else resp_body c;
     resp_headers := resp_headers c |}.

Definition AppendBody (p : slice) : Ctx -> Ctx := fun c =>
  {| ctx_locals := ctx_locals c; resp_status := resp_status c;
     resp_body := go_append (resp_body c) p; resp_headers := resp_headers c |}.

(** [ctx.Write(p)]: appends [p] to the response body. The error it
    returns is always nil. *)
Definition Write {X} (p : slice) : M (HSt L R) X (option error) :=
  modify (with_ctx (AppendBody p)) ;;
  pure None.

(** What a successful [proxy.Do(ctx, tileUrl)] leaves in the context:
    the body of the upstream response is the response body. *)
Definition SetBody (b : slice) : Ctx -> Ctx := fun c =>
  {| ctx_locals := ctx_locals c; resp_status := resp_status c;
     resp_body := b; resp_headers := resp_headers c |}.

Definition SetHeaders (hs : list (string * string)) : Ctx -> Ctx := fun c =>
  {| ctx_locals := ctx_locals c; resp_status := resp_status c;
     resp_body := resp_body c; resp_headers := hs ++ resp_headers c |}.

Definition spawn (t : PTask) (h : HSt L R) : HSt L R :=
  {| proc := proc h; ctx := ctx h; pending := pending h ++ [t] |}.

Definition StatusBadRequest : Z := 400.
Definition StatusInternalServerError : Z := 500.

(** [handler(p)]: the cache is preconfigured when the endpoint is wired. *)
Definition handler_boot (p : ProxyConfig) : M (Proc L R) unit unit :=
  call (Get (Name p)) ;;
  return_ tt.

(** The closure [handler(p)] returns, run for one request. Its result
    is the handler's [error]. What the helpers outside the cache
    compute ([FillParamsMap], [buildTileUrl], [BuildCacheKey], the
    upstream [proxy.Do], [PopulateHeaders]) comes in through [req];
    the removal of response headers and the hand-over to the next
    handler ([ctx.Next()]) are not represented. The handler's call
    [cache.Get(p.Name).Fetch(cacheKey)] is the call of [Fetch] on the
    request's context. *)
Definition handler (p : ProxyConfig) (req : Request)
  : M (HSt L R) (option error) (option error) :=
  let '(tileUrl, err) := req_tileUrl req in
  match err with
  | Some e =>
      modify (with_ctx (Locals "lod-cache" " :err ")) ;;
      Error EBadRequest [AStr (error_Error e)] ;;
      modify (with_ctx (SendStatus StatusBadRequest)) ;;
      return_ None
  | None => pure tt
  end ;;
  let cacheKey := req_cacheKey req in
  let* c := in_proc (Get (Name p)) in
  let* cachedTile := on_cache c (Fetch cacheKey) in
  match cachedTile with
  | Some tile =>
      (* IF WE HIT A CACHED TILE *)
      (* write the tile to the response body *)
      let* err := Write (TileData tile) in
      match err with
      | Some e =>
          modify (with_ctx (Locals "lod-cache" "  :err")) ;;
          Error EWrite [AStr (error_Error e); AStr tileUrl] ;;
          modify (with_ctx (SendStatus StatusInternalServerError)) ;;
          return_ None
      | None => pure tt
      end ;;
      modify (with_ctx (Locals "lod-cache" " :hit ")) ;;
      modify (with_ctx (SetHeaders (Headers tile)))
  | None =>
      (* IF WE MISSED A CACHED TILE *)
      modify (with_ctx (Locals "lod-cache" " :miss")) ;;
      let '(err, body) := req_upstream req in
      match err with
      | Some e => return_ (Some e)
      | None => modify (with_ctx (SetBody body))
      end ;;
      if 0 <? len body then
        let tileData := body in
        let headers := req_keptHeaders req in
        let* c := in_proc (Get (Name p)) in
        modify (spawn (GoEncodeSet c cacheKey tileData headers))
      else pure tt
  end ;;
  return_ None.

End Handler.

(** ** Reference tiers

    Two stores with the behaviour of the libraries as the cache sees it,
    used to run the code on concrete inputs. [MemStore] answers like
    bigcache: a missing key is [ErrEntryNotFound] on [Get] and on
    [Delete]. [RedisStub] answers like a Redis server reached through
    go-redis: GET of a missing key is [redis.Nil], DEL of a missing key
    is not an error. Either store can be put in a failed state, in which
    every operation reports that failure. *)

Record MemStore : Type := {
  mem_entries : gmap string (list byte);
  mem_fault : option error
}.

Record RedisStub : Type := {
  redis_keys : gmap string (list byte);
  redis_fault : option error
}.

#[global] Instance MemStore_tier : LocalTier MemStore := {|
  NewBigCache conf := inl {| mem_entries := ∅; mem_fault := None |};
  bc_Get m key :=
    match mem_fault m with
    | Some e => (None, Some e)
    | None => match mem_entries m !! key with
              | Some b => (Some b, None)
              | None => (None, Some ErrEntryNotFound)
              end
    end;
  bc_Set m key v :=
    match mem_fault m with
    | Some e => (m, Some e)
    | None => ({| mem_entries := <[key := bytes_of v]> (mem_entries m);
                  mem_fault := None |}, None)
    end;
  bc_Delete m key :=
    match mem_fault m with
    | Some e => (m, Some e)
    | None => match mem_entries m !! key with
              | Some _ => ({| mem_entries := delete key (mem_entries m);
                              mem_fault := None |}, None)
              | None => (m, Some ErrEntryNotFound)
              end
    end;
  bc_Reset m :=
    match mem_fault m with
    | Some e => (m, Some e)
    | None => ({| mem_entries := ∅; mem_fault := None |}, None)
    end
|}.

(** A local store that still answers reads but refuses every change:
    [Set], [Delete] and [Reset] report an operational failure and leave
    the entries as they are. *)
Record FrozenStore : Type := {
  frozen_entries : gmap string (list byte)
}.

Definition frozen_err : error := ErrOther "store is read-only".

#[global] Instance FrozenStore_tier : LocalTier FrozenStore := {|
  NewBigCache conf := inl {| frozen_entries := ∅ |};
  bc_Get m key :=
    match frozen_entries m !! key with
    | Some b => (Some b, None)
    | None => (None, Some ErrEntryNotFound)
    end;
  bc_Set m key v := (m, Some frozen_err);
  bc_Delete m key := (m, Some frozen_err);
  bc_Reset m := (m, Some frozen_err)
|}.

Definition redis_scheme : string := "redis://".

#[global] Instance RedisStub_tier : RemoteTier RedisStub := {|
  ParseURL url :=
    if String.prefix redis_scheme url
    then inl {| Addr := String.substring 8 (String.length url - 8) url;
                TLSMinVersion := None |}
    else inr (ErrOther "redis: invalid URL scheme");
  NewClient opts :=
    {| redis_keys := ∅;
       redis_fault := if decide (Addr opts = "unreachable:6379")
                      then Some (ErrOther "dial tcp: connection refused")
                      else None |};
  rc_Ping r := redis_fault r;
  rc_Get r key :=
    match redis_fault r with
    | Some e => {| Err := Some e; Bytes := (None, Some e) |}
    | None => match redis_keys r !! key with
              | Some b => {| Err := None; Bytes := (Some b, None) |}
              | None => {| Err := Some RedisNil; Bytes := (None, Some RedisNil) |}
              end
    end;
  rc_Set r key v ttl :=
    match redis_fault r with
    | Some e => (r, Some e)
    | None => ({| redis_keys := <[key := bytes_of v]> (redis_keys r);
                  redis_fault := None |}, None)
    end;
  rc_Del r key :=
    match redis_fault r with
    | Some e => (r, Some e)
    | None => ({| redis_keys := delete key (redis_keys r);
                  redis_fault := None |}, None)
    end;
  rc_Expire r key ttl := r
|}.

(** A codec instance for the examples: a packet is well formed when it is
    non-empty and starts with the marker byte. The package's own codec is
    not part of this development; every theorem below holds for any
    instance of [PacketCodec]. *)
Definition marker : byte := x4c.

#[global] Instance MarkerCodec : PacketCodec := {|
  Validate t :=
    match t with
    | Some (b :: _) => Byte.eqb b marker
    | _ => false
    end;
  Raw t := t;
  Encode key tileData headers := Some (marker :: bytes_of tileData);
  TileData t := match t with Some (_ :: l) => Some l | _ => None end;
  Headers t := []
|}.

#[global] Instance SampleEnv : Env := {| IsProd := false; Namespace := "lod" |}.

(** Sample configurations and states. *)
Definition conf_of (mem redis : bool) : CacheConfig :=
  {| MemEnabled := mem; MemTTLDuration := 60; MemCap := 16;
     RedisEnabled := redis; RedisURL := "redis://cache:6379";
     RedisTLS := false; RedisTTLDuration := 3600 |}.

Definition osm (mem redis : bool) : ProxyConfig :=
  {| Name := "osm"; TileURL := "https://tile.example/{z}/{x}/{y}.png";
     PCache := conf_of mem redis |}.

Definition mem_of (entries : list (string * list byte)) (fault : option error) : MemStore :=
  {| mem_entries := list_to_map entries; mem_fault := fault |}.

Definition redis_of (keys : list (string * list byte)) (fault : option error) : RedisStub :=
  {| redis_keys := list_to_map keys; redis_fault := fault |}.

Definition st_of (p : ProxyConfig) (i : option MemStore) (x : option RedisStub)
  : St MemStore RedisStub :=
  {| cache := {| internal := i; external := x; Proxy := p;
                 CMetrics := {| CacheHits := 0; CacheMisses := 0 |} |};
     locals := ∅; spawned := []; logs := [] |}.

Definition proc_of (proxies : list ProxyConfig) : Proc MemStore RedisStub :=
  {| Proxies := proxies;
     Caches := ∅; heap := []; cacheLock := None;
     registered := []; plogs := [] |}.

Definition good_tile : list byte := [x4c; x01; x02].
Definition corrupt_tile : list byte := [x00; x01; x02].
Definition timeout_err : error := ErrOther "i/o timeout".

Definition sample_key : string := "z1/x2/y3".

(** Both tiers enabled, the same corrupt blob stored in both. *)
Definition s_corrupt : St MemStore RedisStub :=
  st_of (osm true true)
    (Some (mem_of [(sample_key, corrupt_tile)] None))
    (Some (redis_of [(sample_key, corrupt_tile)] None)).

(** Both tiers enabled, the same corrupt blob stored in both, and the
    local store refuses deletes. *)
Definition s_frozen : St FrozenStore RedisStub :=
  {| cache := {| internal := Some {| frozen_entries := {[sample_key := corrupt_tile]} |};
                 external := Some (redis_of [(sample_key, corrupt_tile)] None);
                 Proxy := osm true true;
                 CMetrics := {| CacheHits := 0; CacheMisses := 0 |} |};
     locals := ∅; spawned := []; logs := [] |}.

(** Both tiers enabled, a valid packet in the remote tier only. *)
Definition s_remote_hit : St MemStore RedisStub :=
  st_of (osm true true)
    (Some (mem_of [] None))
    (Some (redis_of [(sample_key, good_tile)] None)).

(** Both tiers enabled, a valid packet in both. *)
Definition s_both : St MemStore RedisStub :=
  st_of (osm true true)
    (Some (mem_of [(sample_key, good_tile)] None))
    (Some (redis_of [(sample_key, good_tile)] None)).

(** Remote tier only, and the Redis server does not answer. *)
Definition s_remote_down : St MemStore RedisStub :=
  st_of (osm false true) None (Some (redis_of [] (Some timeout_err))).

(** No tier enabled. *)
Definition s_no_tier : St MemStore RedisStub :=
  st_of (osm false false) None None.

(** A proxy whose Redis server cannot be reached. *)
Definition unreachable : ProxyConfig :=
  {| Name := "sat"; TileURL := "https://sat.example/{z}/{x}/{y}.jpg";
     PCache := {| MemEnabled := true; MemTTLDuration := 60; MemCap := 16;
                  RedisEnabled := true;
                  RedisURL := "redis://unreachable:6379";
                  RedisTLS := true; RedisTTLDuration := 0 |} |}.

(** A proxy that is wired to an endpoint but absent from the
    configuration the registry scans. *)
Definition ghost : ProxyConfig :=
  {| Name := "ghost"; TileURL := "https://ghost.example/{z}/{x}/{y}.png";
     PCache := conf_of true true |}.

Definition sample_request : Request :=
  {| req_tileUrl := ("https://ghost.example/1/2/3.png", None);
     req_cacheKey := sample_key;
     req_upstream := (None, Some [x89; x50; x4e; x47]);
     req_keptHeaders := [("Content-Type", "image/png")] |}.

Definition h_of (g : Proc MemStore RedisStub) : HSt MemStore RedisStub :=
  {| proc := g;
     ctx := {| ctx_locals := ∅; resp_status := 200;
               resp_body := None; resp_headers := [] |};
     pending := [] |}.

(** Two goroutines enter [Get "osm"] before the instance exists: both
    test the map, then each takes the lock in turn and builds. *)
Definition two_first_callers : list nat := [0; 1; 0; 1; 0; 0; 1; 1]%nat.

(** ** Vocabulary of the statements *)

Section Statements.
Context {L R : Type} `{!LocalTier L} `{!RemoteTier R} `{!PacketCodec} `{!Env}.
Implicit Types (s : St L R) (key : string).

(** The tiers do not fail while [Invalidate key] runs in [s]: the
    local delete reports success or a missing entry (the only answers
    of a working bigcache), and the remote delete reports no error (a
    Redis DEL of a missing key is answered with a count of zero, not
    with an error). *)
Definition deletes_reliable s key : Prop :=
  (forall i, internal (cache s) = Some i ->
             snd (bc_Delete i key) = None \/
             snd (bc_Delete i key) = Some ErrEntryNotFound) /\
  (forall x, external (cache s) = Some x -> snd (rc_Del x key) = None).

(** What the local tier contributes to [Fetch]: nothing (the tier is
    disabled, or it reports a missing entry), or an abort. *)
Definition local_produced_nothing s key : Prop :=
  MemEnabled (PCache (Proxy (cache s))) = false \/
  (MemEnabled (PCache (Proxy (cache s))) = true /\
   exists i, internal (cache s) = Some i /\
             bc_Get i key = (None, Some ErrEntryNotFound)).

(** The state [Fetch] leaves the log in after a local lookup that
    produced nothing. *)
Definition after_local_miss s key : St L R :=
  if MemEnabled (PCache (Proxy (cache s)))
  then add_log (LogDebug DCacheMiss [AStr key]) s
  else s.

(** [Fetch] finds bytes [b] for [key]: in the local tier, or in the
    remote tier after the local tier produced nothing. *)
Inductive found s key (b : list byte) : Prop :=
| found_local i :
    MemEnabled (PCache (Proxy (cache s))) = true ->
    internal (cache s) = Some i ->
    bc_Get i key = (Some b, None) ->
    found s key b
| found_remote x :
    local_produced_nothing s key ->
    RedisEnabled (PCache (Proxy (cache s))) = true ->
    external (cache s) = Some x ->
    Err (rc_Get x key) = None ->
    Bytes (rc_Get x key) = (Some b, None) ->
    found s key b.

Definition corrupt (b : list byte) : Prop :=
  len (Some b) = 0 \/ Validate (Some b) = false.

(** The delete [Invalidate key] issues on the enabled local tier of
    [s] fails with an error other than a missing entry. *)
Definition local_delete_failed s key : Prop :=
  MemEnabled (PCache (Proxy (cache s))) = true /\
  exists i e, internal (cache s) = Some i /\
              snd (bc_Delete i key) = Some e /\ e <> ErrEntryNotFound.

(** Between [s] and [s'] the key has been deleted from every enabled
    tier. *)
Definition invalidated_everywhere s key (s' : St L R) : Prop :=
  (MemEnabled (PCache (Proxy (cache s))) = true ->
   exists i, internal (cache s) = Some i /\
             internal (cache s') = Some (fst (bc_Delete i key))) /\
  (RedisEnabled (PCache (Proxy (cache s))) = true ->
   exists x, external (cache s) = Some x /\
             external (cache s') = Some (fst (rc_Del x key))).

(** When the remote lookup of [Fetch] fails while [err] is nil. *)
Definition remote_error_unlogged s key : Prop :=
  RedisEnabled (PCache (Proxy (cache s))) = true /\
  (MemEnabled (PCache (Proxy (cache s))) = false \/
   exists i, internal (cache s) = Some i /\ bc_Get i key = (None, None)) /\
  exists x e, external (cache s) = Some x /\
              Err (rc_Get x key) = Some e /\ e <> RedisNil.


(** The configuration [buildInstance] builds from: the first entry, in
    scan order, whose name matches. *)
Definition first_match (name : string) (proxies : list ProxyConfig)
  : option ProxyConfig :=
  List.find (fun p => bool_decide (Name p = name)) proxies.

(** Construction of the enabled local tier fails. *)
Definition internal_fails (proxy : ProxyConfig) : Prop :=
  MemEnabled (PCache proxy) = true /\
  exists e, snd (initInternal (L:=L) proxy) = Some e.

(** Construction of the enabled remote tier fails: the URL does not
    parse, or the ping of the new client fails. *)
Definition external_fails (proxy : ProxyConfig) : Prop :=
  RedisEnabled (PCache proxy) = true /\
  ((exists e, ParseURL (R:=R) (RedisURL (PCache proxy)) = inr e) \/
   (exists opts e,
      ParseURL (R:=R) (RedisURL (PCache proxy)) = inl opts /\
      rc_Ping (NewClient (R:=R) (with_tls proxy opts)) = Some e)).

(** The mutex is not held. *)
Definition lock_free (g : Proc L R) : Prop := cacheLock g <> Some true.

End Statements.

(** ** Goroutines of the process and the vocabulary of further properties *)

Section MoreOperations.
Context {L R : Type} `{!LocalTier L} `{!RemoteTier R} `{!PacketCodec} `{!Env}.
Implicit Types (s : St L R) (key : string) (g : Proc L R).

(** A run of [Fetch] calls on one instance, results dropped. *)
Definition Fetch_each (keys : list string) s : St L R :=
  fold_left (fun s key => snd (exec (Fetch key) s)) keys s.

(** One counter at most moves, by one. *)
Definition counted_once (m m' : Metrics) : Prop :=
  m' = m \/
  m' = {| CacheHits := S (CacheHits m); CacheMisses := CacheMisses m |} \/
  m' = {| CacheHits := CacheHits m; CacheMisses := S (CacheMisses m) |}.

(** The first variadic flag of [Set], false when none is given. *)
Definition local_only (internalOnly : list bool) : bool :=
  match internalOnly with
  | b :: _ => b
  | [] => false
  end.

(** The goroutines [Set] starts. *)
Definition Set_goroutines s key (tile : TilePacket) (internalOnly : list bool)
  : list Task :=
  if negb (local_only internalOnly) && RedisEnabled (PCache (Proxy (cache s)))
  then [GoExternalSet key tile]
  else [].

(** The enabled tiers work while a key is deleted and looked up again:
    the local delete reports success or a missing entry and the entry
    is then missing; the remote delete reports no error and the key is
    then nil. *)
Definition deletes_take_effect s key : Prop :=
  (forall i, MemEnabled (PCache (Proxy (cache s))) = true ->
             internal (cache s) = Some i ->
             (snd (bc_Delete i key) = None \/
              snd (bc_Delete i key) = Some ErrEntryNotFound) /\
             bc_Get (fst (bc_Delete i key)) key = (None, Some ErrEntryNotFound)) /\
  (forall x, RedisEnabled (PCache (Proxy (cache s))) = true ->
             external (cache s) = Some x ->
             snd (rc_Del x key) = None /\
             Err (rc_Get (fst (rc_Del x key)) key) = Some RedisNil).

(** The bytes are usable as a packet: non-empty and valid. *)
Definition servable (b : list byte) : Prop :=
  len (Some b) <> 0 /\ Validate (Some b) = true.

(** What a pending goroutine of the process does when it runs. A nil
    receiver of [EncodeSet] panics. *)
Definition run_ptask (t : PTask) : M (HSt L R) unit unit :=
  match t with
  | OfCache addr t => on_cache (Some addr) (run_task t)
  | GoEncodeSet receiver key tileData headers =>
      on_cache receiver (EncodeSet key tileData headers)
  end.



(** [Get name] called [n] times in a row, results dropped. *)
Definition Get_repeated (n : nat) (name : string) g : Proc L R :=
  Nat.iter n (fun g => snd (exec (Get name) g)) g.

(** Every name in the registry map points to an allocated instance of
    that name which has the tiers its configuration enables, and the
    mutex is not held. *)
Definition registry_ok g : Prop :=
  lock_free g /\
  forall n p, Caches g !! n = Some p ->
              exists c, heap g !! p = Some c /\ complete c /\
                        Name (Proxy c) = n.

(** A computation keeps an invariant of the state, however it ends. *)
Definition keeps {S X A} (I : S -> Prop) (m : M S X A) : Prop :=
  forall st, I st -> I (snd (m st)).

(** [registry_ok] as an invariant of the handler's state. *)
Definition registry_ok_h (h : HSt L R) : Prop := registry_ok (proc h).

(** The state [Fetch] runs in when the handler calls it on the
    instance at [c]. *)
Definition fetch_state (h : HSt L R) (c : Cache L R) : St L R :=
  {| cache := c; locals := ctx_locals (ctx h); spawned := [];
     logs := plogs (proc h) |}.

(** The handler's state after a method of the instance at [addr] ran
    from [fetch_state] to [s']. *)
Definition after_method (h : HSt L R) (addr : nat) (s' : St L R) : HSt L R :=
  {| proc := {| Proxies := Proxies (proc h); Caches := Caches (proc h);
                heap := <[addr := cache s']> (heap (proc h));
                cacheLock := cacheLock (proc h);
                registered := registered (proc h);
                plogs := logs s' |};
     ctx := {| ctx_locals := locals s'; resp_status := resp_status (ctx h);
               resp_body := resp_body (ctx h);
               resp_headers := resp_headers (ctx h) |};
     pending := (pending h ++ map (OfCache addr) (spawned s'))%list |}.

(** The state the next request is served in: the process as it is,
    on the response context [c0] of that request. *)
Definition next_request (c0 : Ctx) (h : HSt L R) : HSt L R :=
  {| proc := proc h; ctx := c0; pending := pending h |}.

End MoreOperations.

(** Further sample states. *)

(** Both tiers enabled and empty. *)
Definition s_empty : St MemStore RedisStub :=
  st_of (osm true true) (Some (mem_of [] None)) (Some (redis_of [] None)).

(** Local tier empty, Redis not answering. *)
Definition s_local_miss_remote_down : St MemStore RedisStub :=
  st_of (osm true true) (Some (mem_of [] None))
        (Some (redis_of [] (Some timeout_err))).

(** The local tier is failing. *)
Definition s_local_down : St MemStore RedisStub :=
  st_of (osm true true) (Some (mem_of [] (Some timeout_err)))
        (Some (redis_of [] None)).

(** Local tier only, holding a valid packet. *)
Definition s_local_only : St MemStore RedisStub :=
  st_of (osm true false) (Some (mem_of [(sample_key, good_tile)] None)) None.

(** Remote tier only, empty. *)
Definition s_remote_only : St MemStore RedisStub :=
  st_of (osm false true) None (Some (redis_of [] None)).

(** A process in which the instance [c] is stored for ["osm"]. *)
Definition proc_with (c : Cache MemStore RedisStub) : Proc MemStore RedisStub :=
  {| Proxies := [osm true true];
     Caches := {["osm" := 0%nat]}; heap := [c]; cacheLock := Some false;
     registered := []; plogs := [] |}.

Definition bad_request : Request :=
  {| req_tileUrl := ("", Some (ErrOther "invalid tile coordinates"));
     req_cacheKey := "";
     req_upstream := (None, None);
     req_keptHeaders := [] |}.

Definition png_body : list byte := [x89; x50; x4e; x47].

(** The response context of a request that has not been answered yet. *)
Definition fresh_ctx : Ctx :=
  {| ctx_locals := ∅; resp_status := 200; resp_body := None; resp_headers := [] |}.

(** * Properties *)

(** Unfolding of the monad and of the state updates. *)
Ltac run_core :=
  cbv beta iota zeta delta
    [exec call bind pure return_ panic gets modify deref Error_ defer
     DebugFlag Error go cfg add_log St_log Proc_log HSt_log
     with_cache set_internal set_external hits_Inc misses_Inc add_task
     set_local andb orb negb is_nil] in *;
  cbn [fst snd cache locals spawned logs internal external Proxy CMetrics
       is_nil CacheHits CacheMisses] in *.

Ltac run :=
  run_core;
  repeat (first [ rewrite decide_True by congruence
                | rewrite decide_False by congruence ]; run_core).

Ltac use_eqs :=
  repeat match goal with
         | H : ?t = (_, _) |- context [?t] => rewrite H
         end.

Ltac fin :=
  cbn;
  first [ done
        | by (intros; congruence)
        | by (use_eqs; cbn; done)
        | eexists; fin
        | idtac ].

(** Rewrite with the equations at hand as the computation reaches them. *)
Ltac drive :=
  run;
  repeat (match goal with
          | H : ?l = _ |- context [?l] => rewrite H
          end; run).

(** Case analysis on the innermost stuck test of the computation. *)
Ltac inner_case_in H :=
  match type of H with
  | context [match ?x with _ => _ end] =>
      lazymatch x with
      | context [match _ with _ => _ end] => fail
      | _ => destruct x eqn:?
      end
  end.

Ltac inner_case :=
  match goal with
  | |- context [match ?x with _ => _ end] =>
      lazymatch x with
      | context [match _ with _ => _ end] => fail
      | _ => destruct x eqn:?
      end
  end.

Section CacheProperties.
Context {L R : Type} `{!LocalTier L} `{!RemoteTier R} `{!PacketCodec}.
Implicit Types (s : St L R) (key : string).

(** [Invalidate] on a complete instance returns (it does not panic),
    leaves configuration, metrics, request locals and goroutines alone
    and keeps the instance complete. *)
Lemma Invalidate_returns s key :
  complete (cache s) ->
  exists e s',
    exec (Invalidate key) s = (Ret e, s') /\
    Proxy (cache s') = Proxy (cache s) /\
    CMetrics (cache s') = CMetrics (cache s) /\
    locals s' = locals s /\ spawned s' = spawned s /\ logs s' = logs s /\
    complete (cache s').
Proof.
  destruct s as [[i x p m] lo sp lg]. unfold complete, Invalidate. run.
  intros [Hi Hx].
  destruct (MemEnabled (PCache p)) eqn:Em, (RedisEnabled (PCache p)) eqn:Er;
    run; rewrite ?Em, ?Er.
  - destruct i as [i|]; [|by specialize (Hi eq_refl)].
    destruct x as [x|]; [|by specialize (Hx eq_refl)].
    run. destruct (bc_Delete i key) as [i' [e|]]; run.
    + destruct (decide (e = ErrEntryNotFound)); run.
      * destruct (rc_Del x key) as [x' [e'|]]; run; fin.
      * fin.
    + destruct (rc_Del x key) as [x' [e'|]]; run; fin.
  - destruct i as [i|]; [|by specialize (Hi eq_refl)].
    run. destruct (bc_Delete i key) as [i' [e|]]; run.
    + destruct (decide (e = ErrEntryNotFound)); run; fin.
    + fin.
  - destruct x as [x|]; [|by specialize (Hx eq_refl)].
    run. destruct (rc_Del x key) as [x' [e'|]]; run; fin.
  - fin.
Qed.

Lemma Invalidate_reliable s key :
  complete (cache s) -> deletes_reliable s key ->
  exists s', exec (Invalidate key) s = (Ret None, s').
Proof.
  destruct s as [[i x p m] lo sp lg]. unfold complete, deletes_reliable, Invalidate.
  run. intros [Hi Hx] [Ri Rx].
  destruct (MemEnabled (PCache p)) eqn:Em.
  - destruct i as [i|]; [|by specialize (Hi eq_refl)].
    specialize (Ri i eq_refl). run.
    destruct (bc_Delete i key) as [i' err]; cbn [snd] in Ri.
    assert (Hcont : forall e, err = Some e -> e = ErrEntryNotFound)
      by (intros e ->; destruct Ri; congruence).
    destruct err as [e|]; run.
    + rewrite (Hcont e eq_refl). run.
      destruct (RedisEnabled (PCache p)) eqn:Er; run; [|fin].
      destruct x as [x|]; [|by specialize (Hx eq_refl)].
      specialize (Rx x eq_refl). run.
      destruct (rc_Del x key) as [x' err']; cbn [snd] in Rx; subst err'. run. fin.
    + destruct (RedisEnabled (PCache p)) eqn:Er; run; [|fin].
      destruct x as [x|]; [|by specialize (Hx eq_refl)].
      specialize (Rx x eq_refl). run.
      destruct (rc_Del x key) as [x' err']; cbn [snd] in Rx; subst err'. run. fin.
  - run. destruct (RedisEnabled (PCache p)) eqn:Er; run; [|fin].
    destruct x as [x|]; [|by specialize (Hx eq_refl)].
    specialize (Rx x eq_refl). run.
    destruct (rc_Del x key) as [x' err']; cbn [snd] in Rx; subst err'. run. fin.
Qed.

(** What [Invalidate] does to the tiers: the local delete is always
    issued on an enabled local tier, and the remote delete is issued on
    an enabled remote tier unless the local delete failed with an error
    other than a missing entry. *)
Lemma Invalidate_deletes s key e s' :
  complete (cache s) ->
  exec (Invalidate key) s = (Ret e, s') ->
  (MemEnabled (PCache (Proxy (cache s))) = true ->
   exists i, internal (cache s) = Some i /\
             internal (cache s') = Some (fst (bc_Delete i key))) /\
  (RedisEnabled (PCache (Proxy (cache s))) = true ->
   (forall i, internal (cache s) = Some i ->
              MemEnabled (PCache (Proxy (cache s))) = true ->
              snd (bc_Delete i key) = None \/
              snd (bc_Delete i key) = Some ErrEntryNotFound) ->
   exists x, external (cache s) = Some x /\
             external (cache s') = Some (fst (rc_Del x key))).
Proof.
  destruct s as [[i x p m] lo sp lg]. unfold complete, Invalidate.
  run. intros [Hi Hx].
  destruct (MemEnabled (PCache p)) eqn:Em.
  - destruct i as [i|]; [|by specialize (Hi eq_refl)]. run.
    destruct (bc_Delete i key) as [i' err] eqn:Ed.
    destruct err as [e0|]; run.
    + destruct (decide (e0 = ErrEntryNotFound)); run.
      * destruct (RedisEnabled (PCache p)) eqn:Er; run.
        -- destruct x as [x|]; [|by specialize (Hx eq_refl)]. run.
           destruct (rc_Del x key) as [x' err'] eqn:Ex.
           destruct err'; run; intros; simplify_eq; fin.
        -- intros; simplify_eq; fin.
      * intros; simplify_eq. split; [fin|].
        intros _ Hrel.
        destruct (Hrel i eq_refl eq_refl) as [Hd|Hd];
          rewrite Ed in Hd; cbn in Hd; congruence.
    + destruct (RedisEnabled (PCache p)) eqn:Er; run.
      * destruct x as [x|]; [|by specialize (Hx eq_refl)]. run.
        destruct (rc_Del x key) as [x' err'] eqn:Ex.
        destruct err'; run; intros; simplify_eq; fin.
      * intros; simplify_eq; fin.
  - run. destruct (RedisEnabled (PCache p)) eqn:Er; run.
    + destruct x as [x|]; [|by specialize (Hx eq_refl)]. run.
      destruct (rc_Del x key) as [x' err'] eqn:Ex.
      destruct err'; run; intros; simplify_eq; fin.
    + intros; simplify_eq; fin.
Qed.

(** When the local delete fails with an error other than a missing
    entry, [Invalidate] returns that error at once: the remote tier is
    not touched. *)
Lemma Invalidate_stops_at_local_failure s key e s' :
  local_delete_failed s key ->
  exec (Invalidate key) s = (Ret e, s') ->
  external (cache s') = external (cache s) /\
  exists e0, e = Some e0 /\ e0 <> ErrEntryNotFound.
Proof.
  destruct s as [[i x p m] lo sp lg]. unfold local_delete_failed, Invalidate.
  run. intros (Hm & i0 & e0 & Hi & Hd & Hne). simplify_eq.
  rewrite Hm. run.
  destruct (bc_Delete i0 key) as [i' err]. cbn [snd] in Hd. subst err. run.
  intros; simplify_eq. split; [done|]. by exists e0.
Qed.

Lemma local_delete_soft s key :
  ~ local_delete_failed s key ->
  forall i, internal (cache s) = Some i ->
            MemEnabled (PCache (Proxy (cache s))) = true ->
            snd (bc_Delete i key) = None \/
            snd (bc_Delete i key) = Some ErrEntryNotFound.
Proof.
  intros Hn i Hi Hm.
  destruct (snd (bc_Delete i key)) as [e|] eqn:Hd; [|by left].
  destruct (decide (e = ErrEntryNotFound)) as [->|Hne]; [by right|].
  destruct Hn. split; [done|]. by exists i, e.
Qed.

(** [Set] with the local-only flag: nothing is written to the remote
    tier and no goroutine is started, whatever the configuration. *)
Lemma Set_internalOnly s key tile more :
  complete (cache s) ->
  exists s',
    exec (Set_ key tile (true :: more)) s = (Ret tt, s') /\
    external (cache s') = external (cache s) /\
    spawned s' = spawned s /\
    CMetrics (cache s') = CMetrics (cache s) /\
    internal (cache s') =
      (if MemEnabled (PCache (Proxy (cache s)))
       then (fun i => fst (bc_Set i key tile)) <$> internal (cache s)
       else internal (cache s)).
Proof.
  destruct s as [[i x p m] lo sp lg]. unfold complete, Set_. run.
  intros [Hi Hx]. cbn [negb andb]. run.
  destruct (MemEnabled (PCache p)) eqn:Em; run; [|fin].
  destruct i as [i|]; [|by specialize (Hi eq_refl)]. run.
  destruct (bc_Set i key tile) as [i' [e|]] eqn:Es; run; fin.
Qed.

(** *** Fetch: the lookup phase *)

(** A local-tier error other than not-found: the fetch is aborted,
    absent is returned and only the log changes. *)
Lemma Fetch_local_error s key i ct e :
  MemEnabled (PCache (Proxy (cache s))) = true ->
  internal (cache s) = Some i ->
  bc_Get i key = (ct, Some e) ->
  e <> ErrEntryNotFound ->
  exec (Fetch key) s =
    (Ret None, add_log (LogError ECacheFetch [AStr key; AStr (error_Error e)]) s).
Proof.
  destruct s as [[i0 x p m] lo sp lg]. unfold Fetch. run.
  intros Hm [= ->] Hg Hne. drive. done.
Qed.

(** Remote not-found: exactly one miss is counted and absent is
    returned at once. *)
Lemma Fetch_remote_not_found s key x :
  local_produced_nothing s key ->
  RedisEnabled (PCache (Proxy (cache s))) = true ->
  external (cache s) = Some x ->
  Err (rc_Get x key) = Some RedisNil ->
  exec (Fetch key) s =
    (Ret None,
     add_log (LogDebug DCacheMissExt [AStr key])
       (with_cache misses_Inc (after_local_miss s key))).
Proof.
  destruct s as [[i0 x0 p m] lo sp lg].
  unfold Fetch, local_produced_nothing, after_local_miss. run.
  intros [Hm | (Hm & i & [= ->] & Hg)] Hr [= ->] He; drive; done.
Qed.

(** A remote error other than not-found, after the local tier reported
    a missing entry: absent is returned and the instance (tiers and
    metrics) is unchanged. The message logged is the one of the local
    tier's error, which is what the variable [err] still holds. *)
Lemma Fetch_remote_error_after_local_miss s key i x e :
  MemEnabled (PCache (Proxy (cache s))) = true ->
  internal (cache s) = Some i ->
  bc_Get i key = (None, Some ErrEntryNotFound) ->
  RedisEnabled (PCache (Proxy (cache s))) = true ->
  external (cache s) = Some x ->
  Err (rc_Get x key) = Some e ->
  e <> RedisNil ->
  exec (Fetch key) s =
    (Ret None,
     add_log (LogError ECacheFetch
                [AStr key; AStr (error_Error ErrEntryNotFound)])
       (add_log (LogDebug DCacheMiss [AStr key]) s)).
Proof.
  destruct s as [[i0 x0 p m] lo sp lg]. unfold Fetch. run.
  intros Hm [= ->] Hg Hr [= ->] He Hne. drive. done.
Qed.

(** The defect of line 217: with the local tier disabled the variable
    [err] is still nil when the remote tier fails, and [err.Error()]
    panics. *)
Lemma Fetch_remote_error_panics s key x e :
  MemEnabled (PCache (Proxy (cache s))) = false ->
  RedisEnabled (PCache (Proxy (cache s))) = true ->
  external (cache s) = Some x ->
  Err (rc_Get x key) = Some e ->
  e <> RedisNil ->
  exec (Fetch key) s = (Panicked "nil pointer dereference: err.Error()", s).
Proof.
  destruct s as [[i0 x0 p m] lo sp lg]. unfold Fetch. run.
  intros Hm Hr [= ->] He Hne. drive. done.
Qed.

(** No tier produced bytes: exactly one miss is counted. *)
Lemma Fetch_no_bytes s key :
  local_produced_nothing s key ->
  (RedisEnabled (PCache (Proxy (cache s))) = false \/
   exists x, external (cache s) = Some x /\
             Err (rc_Get x key) = Some RedisNil) ->
  exists s',
    exec (Fetch key) s = (Ret None, s') /\
    CMetrics (cache s') =
      {| CacheHits := CacheHits (CMetrics (cache s));
         CacheMisses := S (CacheMisses (CMetrics (cache s))) |} /\
    internal (cache s') = internal (cache s) /\
    external (cache s') = external (cache s) /\
    spawned s' = spawned s.
Proof.
  intros Hl [Hr | (x & Hx & He)].
  - destruct s as [[i0 x0 p m] lo sp lg].
    unfold Fetch, local_produced_nothing in *. run.
    destruct Hl as [Hm | (Hm & i & [= ->] & Hg)]; drive; fin.
  - destruct (RedisEnabled (PCache (Proxy (cache s)))) eqn:Hr.
    + rewrite (Fetch_remote_not_found s key x Hl Hr Hx He).
      unfold after_local_miss.
      destruct (MemEnabled (PCache (Proxy (cache s)))); run; fin.
    + destruct s as [[i0 x0 p m] lo sp lg].
      unfold Fetch, local_produced_nothing in *. run.
      destruct Hl as [Hm | (Hm & i & [= ->] & Hg)]; drive; fin.
Qed.

(** *** Fetch: hits *)

(** Everything a caller can learn from [Fetch] returning a packet. *)
Lemma Fetch_hit_inv s key t s' :
  exec (Fetch key) s = (Ret (Some t), s') ->
  (exists b, t = Some b) /\ len t <> 0 /\ Validate t = true /\
  cache s' = hits_Inc (cache s) /\
  ((exists i, MemEnabled (PCache (Proxy (cache s))) = true /\
              internal (cache s) = Some i /\ fst (bc_Get i key) = t /\
              spawned s' = (spawned s ++ [GoSet key t [true]])%list) \/
   (exists x, RedisEnabled (PCache (Proxy (cache s))) = true /\
              external (cache s) = Some x /\
              fst (Bytes (rc_Get x key)) = t /\
              (spawned s' = (spawned s ++ [GoSet key t [true]])%list \/
               spawned s' =
                 (spawned s ++
                  [GoExpire key (RedisTTLDuration (PCache (Proxy (cache s))));
                   GoSet key t [true]])%list))).
Proof.
  destruct s as [[i x p m] lo sp lg]. unfold Fetch. run.
  intros Hf.
  repeat (inner_case_in Hf; run; try discriminate).
  all: simplify_eq.
  all: repeat match goal with
              | H : (_ =? _) = false |- _ => apply Z.eqb_neq in H
              end.
  all: split; [by eexists|]; split; [done|]; split; [done|]; split; [done|].
  all: try by (left; eexists; repeat split; try done; by use_eqs).
  all: right; eexists; repeat split; try done; try (by use_eqs).
  all: rewrite <- ?app_assoc; cbn; auto.
Qed.

Lemma corrupt_test b :
  corrupt b -> (len (Some b) =? 0) = true \/
               ((len (Some b) =? 0) = false /\ Validate (Some b) = false).
Proof.
  intros [Hl | Hv].
  - left. by apply Z.eqb_eq.
  - destruct (len (Some b) =? 0); auto.
Qed.

(** Bytes that are found but corrupt: [Fetch] counts a hit, runs
    [Invalidate key] and returns absent. The tiers end up exactly as
    [Invalidate key] leaves them. *)
Lemma Fetch_corrupt s key b :
  complete (cache s) -> found s key b -> corrupt b ->
  exists s' e s2,
    exec (Fetch key) s = (Ret None, s') /\
    exec (Invalidate key) s = (Ret e, s2) /\
    internal (cache s') = internal (cache s2) /\
    external (cache s') = external (cache s2) /\
    CMetrics (cache s') = CMetrics (hits_Inc (cache s)).
Proof.
  intros [Hi Hx] Hf Hc. apply corrupt_test in Hc.
  destruct s as [[i x p m] lo sp lg]. unfold Fetch, Invalidate.
  destruct Hf as [i1 Hm Hi1 Hg | x1 Hl Hr Hx1 He Hb]; run.
  - simplify_eq. destruct (RedisEnabled (PCache p)) eqn:Hr.
    + destruct x as [x|]; [|by specialize (Hx eq_refl)].
      destruct Hc as [Hc | [Hc Hv]]; drive;
        repeat (inner_case; drive); fin.
    + destruct Hc as [Hc | [Hc Hv]]; drive;
        repeat (inner_case; drive); fin.
  - simplify_eq.
    destruct Hl as [Hm | (Hm & i1 & [= ->] & Hg)];
      destruct Hc as [Hc | [Hc Hv]]; drive;
      repeat (inner_case; drive); fin.
Qed.

(** On a complete instance [Fetch] returns in every case but that one. *)
Lemma Fetch_returns_or_panics s key :
  complete (cache s) ->
  (exists r s', exec (Fetch key) s = (Ret r, s')) \/
  (remote_error_unlogged s key /\
   exec (Fetch key) s = (Panicked "nil pointer dereference: err.Error()", s)).
Proof.
  intros [Hi Hx]. destruct s as [[i x p m] lo sp lg].
  unfold remote_error_unlogged, Fetch, Invalidate. run.
  destruct (MemEnabled (PCache p)) eqn:Hm, (RedisEnabled (PCache p)) eqn:Hr.
  all: try (destruct i as [i|]; [|by specialize (Hi eq_refl)]).
  all: try (destruct x as [x|]; [|by specialize (Hx eq_refl)]).
  all: run; repeat (inner_case; run).
  all: try by (left; fin).
  all: right; split; [|done]; split; [done|]; split; eauto 8.
  all: do 2 eexists; split; [done|]; split; [done|]; congruence.
Qed.

(** *** The claims about [Fetch], [Set] and [Invalidate] *)

(** C1, as amended. Whenever [Fetch] finds bytes in a tier and they
    are empty or fail [Validate], it returns absent after running
    [Invalidate key]: the key is deleted from the local tier if that
    tier is enabled, and from the remote tier if that tier is enabled,
    unless the local delete failed with an error other than a missing
    entry, in which case the remote tier is left as it was. And
    whatever [Fetch] returns as a hit is non-empty and passes
    [Validate]. *)
Theorem C1_corrupt_bytes_never_served :
  (forall s key b,
     complete (cache s) -> found s key b -> corrupt b ->
     exists s',
       exec (Fetch key) s = (Ret None, s') /\
       (MemEnabled (PCache (Proxy (cache s))) = true ->
        exists i, internal (cache s) = Some i /\
                  internal (cache s') = Some (fst (bc_Delete i key))) /\
       (RedisEnabled (PCache (Proxy (cache s))) = true ->
        exists x, external (cache s) = Some x /\
                  (~ local_delete_failed s key ->
                   external (cache s') = Some (fst (rc_Del x key))) /\
                  (local_delete_failed s key ->
                   external (cache s') = Some x))) /\
  (forall s key t s',
     exec (Fetch key) s = (Ret (Some t), s') ->
     (exists b, t = Some b /\ ~ corrupt b)).
Proof.
  split.
  - intros s key b Hc Hf Hb.
    destruct (Fetch_corrupt s key b Hc Hf Hb)
      as (s' & e & s2 & Hfetch & Hinv & Hi & Hx & _).
    destruct (Invalidate_deletes s key e s2 Hc Hinv) as [Hdi Hdx].
    exists s'. split; [exact Hfetch|]. split.
    + intros Hm. rewrite Hi. by apply Hdi.
    + intros Hr.
      destruct (external (cache s)) as [x|] eqn:Hext.
      2: { destruct Hc as [_ Hc]. specialize (Hc Hr).
           rewrite Hext in Hc. discriminate. }
      exists x. split; [done|]. split.
      * intros Hn. rewrite Hx.
        destruct (Hdx Hr (local_delete_soft s key Hn)) as (x0 & Hx0 & Hx2).
        congruence.
      * intros Hfail. rewrite Hx.
        destruct (Invalidate_stops_at_local_failure s key e s2 Hfail Hinv)
          as [Hsame _].
        congruence.
  - intros s key t s' Hf.
    destruct (Fetch_hit_inv s key t s' Hf) as ([b ->] & Hl & Hv & _).
    exists b. split; [done|]. intros [? | ?]; congruence.
Qed.

(** C4. A hit starts the goroutine [c.Set(key, bytes, true)] with the
    bytes that were found, starts no other writer and leaves both
    tiers untouched itself; and [Set] with the local-only flag writes
    the local tier only: the remote tier is unchanged and no goroutine
    is started, whether or not the remote tier is enabled. *)
Theorem C4_refresh_on_read_is_local_only :
  (forall s key t s',
     exec (Fetch key) s = (Ret (Some t), s') ->
     (exists ex,
        spawned s' = (spawned s ++ ex ++ [GoSet key t [true]])%list /\
        (ex = [] \/
         ex = [GoExpire key (RedisTTLDuration (PCache (Proxy (cache s))))])) /\
     ((exists i, internal (cache s) = Some i /\ fst (bc_Get i key) = t) \/
      (exists x, external (cache s) = Some x /\
                 fst (Bytes (rc_Get x key)) = t)) /\
     internal (cache s') = internal (cache s) /\
     external (cache s') = external (cache s)) /\
  (forall s key tile more,
     complete (cache s) ->
     exists s',
       exec (run_task (GoSet key tile (true :: more))) s = (Ret tt, s') /\
       external (cache s') = external (cache s) /\
       spawned s' = spawned s /\
       internal (cache s') =
         (if MemEnabled (PCache (Proxy (cache s)))
          then (fun i => fst (bc_Set i key tile)) <$> internal (cache s)
          else internal (cache s))).
Proof.
  split.
  - intros s key t s' Hf.
    destruct (Fetch_hit_inv s key t s' Hf) as (_ & _ & _ & Hc & Hsp).
    rewrite Hc. repeat split; try done.
    + destruct Hsp as [(i & _ & _ & _ & ->) | (x & _ & _ & _ & [-> | ->])].
      * exists []. auto.
      * exists []. auto.
      * eexists [_]. split; [done | auto].
    + destruct Hsp as [(i & _ & ? & ? & _) | (x & _ & ? & ? & _)]; eauto.
  - intros s key tile more Hc.
    destruct (Set_internalOnly s key tile more Hc) as (s' & Hs & ? & ? & _ & ?).
    exists s'. split; [|done].
    cbn [run_task]. unfold exec, call in *. unfold exec.
    destruct (Set_ key tile (true :: more) s) as [[ | | ] ?]; by simplify_eq.
Qed.

(** C6. On a complete instance, after a first [Invalidate key], a
    second one returns nil provided its tier deletes report nothing
    but success or, for the local tier, a missing entry. *)
Theorem C6_Invalidate_twice s key r1 s1 :
  complete (cache s) ->
  exec (Invalidate key) s = (r1, s1) ->
  deletes_reliable s1 key ->
  exists s2, exec (Invalidate key) s1 = (Ret None, s2).
Proof.
  intros Hc H1 Hrel.
  destruct (Invalidate_returns s key Hc) as (e & s' & He & _ & _ & _ & _ & _ & Hc').
  rewrite He in H1. simplify_eq.
  by apply Invalidate_reliable.
Qed.

(** C8. With both tiers disabled, [Fetch] counts one miss and returns
    absent, and [Set] does nothing but log: the instance and the list
    of goroutines are unchanged. *)
Theorem C8_no_tier_enabled s key :
  MemEnabled (PCache (Proxy (cache s))) = false ->
  RedisEnabled (PCache (Proxy (cache s))) = false ->
  exec (Fetch key) s =
    (Ret None,
     add_log (LogDebug DCacheMissExt [AStr key]) (with_cache misses_Inc s)) /\
  (forall tile internalOnly,
     exec (Set_ key tile internalOnly) s =
       (Ret tt,
        add_log (LogDebug DCacheSet [AStr key; AInt (len tile)]) s)).
Proof.
  destruct s as [[i x p m] lo sp lg]. unfold Fetch, Set_. run.
  intros Hm Hr. split.
  - drive. done.
  - intros tile io. drive.
    destruct io as [|[|] ?]; run; done.
Qed.

(** C10. [Fetch] does not always return: with the local tier disabled
    and the remote lookup failing with an error other than not-found,
    it panics (the nil [err] is asked for its message), and so returns
    neither a packet nor absent. *)
Theorem C10_Fetch_panics_on_remote_error s key x e :
  MemEnabled (PCache (Proxy (cache s))) = false ->
  RedisEnabled (PCache (Proxy (cache s))) = true ->
  external (cache s) = Some x ->
  Err (rc_Get x key) = Some e ->
  e <> RedisNil ->
  exec (Fetch key) s = (Panicked "nil pointer dereference: err.Error()", s) /\
  ~ (exists r s', exec (Fetch key) s = (Ret r, s')).
Proof.
  intros Hm Hr Hx He Hne.
  pose proof (Fetch_remote_error_panics s key x e Hm Hr Hx He Hne) as Hp.
  split; [done|]. intros (r & s' & Hret). congruence.
Qed.

End CacheProperties.

Ltac prun :=
  cbv beta iota zeta delta
    [Get buildInstance critical lock_init Lock Unlock build_from initExternal
     initMetrics promauto_register set_lock add_registered store_new
     go_pair] in *;
  run;
  cbn [Proxies Caches heap cacheLock registered plogs] in *.

Section RegistryProperties.
Context {L R : Type} `{!LocalTier L} `{!RemoteTier R} `{!PacketCodec} `{!Env}.
Implicit Types (g : Proc L R) (name : string).

Lemma first_match_name name proxies proxy :
  first_match name proxies = Some proxy -> Name proxy = name.
Proof.
  unfold first_match. intros Hf. apply find_some in Hf as [_ Hn].
  by apply bool_decide_eq_true in Hn.
Qed.

(** The scan stops at the first matching entry. *)
Lemma loop_found name proxies proxy g :
  first_match name proxies = Some proxy ->
  buildInstance_loop name proxies g = build_from name proxy g.
Proof.
  unfold first_match. induction proxies as [|q rest IH]; cbn; [done|].
  destruct (decide (Name q = name)) as [Hq|Hq].
  - rewrite bool_decide_eq_true_2 by done. by intros [= ->].
  - rewrite bool_decide_eq_false_2 by done. apply IH.
Qed.

Lemma loop_not_found name proxies g :
  first_match name proxies = None ->
  buildInstance_loop name proxies g = (Next tt, g).
Proof.
  unfold first_match. induction proxies as [|q rest IH]; cbn; [done|].
  destruct (decide (Name q = name)) as [Hq|Hq].
  - by rewrite bool_decide_eq_true_2 by done.
  - rewrite bool_decide_eq_false_2 by done. apply IH.
Qed.

(** [Get] returns the instance already stored, and changes nothing. *)
Lemma Get_existing g name p :
  Caches g !! name = Some p -> exec (Get name) g = (Ret (Some p), g).
Proof. intros Hp. prun. rewrite Hp. run. by rewrite Hp. Qed.

(** A name no configuration matches: [Get] logs and returns nil, and
    stores and registers nothing. *)
Lemma Get_unknown_name g name :
  lock_free g ->
  Caches g !! name = None ->
  first_match name (Proxies g) = None ->
  exec (Get name) g =
    (Ret None,
     add_log (LogError ECacheName [AStr name]) (set_lock (Some false) g)).
Proof.
  intros Hl Hc Hf. unfold lock_free in Hl. prun. rewrite Hc. run.
  destruct g as [px cs hp [[|]|] rg lg]; cbn in *; try done;
    prun; rewrite (loop_not_found _ _ _ Hf); prun; done.
Qed.

Lemma initInternal_ok proxy (i : option L) :
  initInternal proxy = (i, None) -> is_nil i = false.
Proof.
  unfold initInternal, go_pair.
  destruct (NewBigCache _); intros [= <-]; done.
Qed.

(** A failing tier constructor: [Get] returns nil and the registry, the
    heap and the metrics registry are as before. *)
Lemma Get_construction_fails g name proxy :
  lock_free g ->
  Caches g !! name = None ->
  first_match name (Proxies g) = Some proxy ->
  internal_fails (L:=L) proxy \/ external_fails (R:=R) proxy ->
  exists g',
    exec (Get name) g = (Ret None, g') /\
    Caches g' = Caches g /\ heap g' = heap g /\
    registered g' = registered g.
Proof.
  intros Hl Hc Hf Hfail. unfold lock_free in Hl. prun. rewrite Hc. run.
  destruct g as [px cs hp lk rg lg]; cbn in *.
  assert (Hlk : lk = None \/ lk = Some false)
    by (destruct lk as [[|]|]; auto; done).
  destruct Hfail as [[Hm [e He]] | [Hr Hx]].
  - destruct (initInternal proxy) as [i err] eqn:Hi; cbn in He; subst err.
    destruct Hlk as [-> | ->]; prun;
      rewrite (loop_found _ _ _ _ Hf); prun; rewrite Hm, Hi; prun; fin.
  - destruct Hlk as [-> | ->]; prun;
      rewrite (loop_found _ _ _ _ Hf); prun; rewrite Hr.
    all: destruct (MemEnabled (PCache proxy));
      [destruct (initInternal proxy) as [i [e|]]|]; prun; try by fin.
    all: destruct Hx as [[e He] | (opts & e & Ho & Hp)];
      [rewrite He | rewrite Ho]; prun; rewrite ?Hp; prun; fin.
Qed.

(** An instance that [Get] builds has every tier its configuration
    enables, and has registered its three collectors. *)
Lemma Get_builds_complete g name p g' :
  Caches g !! name = None ->
  exec (Get name) g = (Ret (Some p), g') ->
  exists c,
    heap g' !! p = Some c /\ complete c /\
    Caches g' !! name = Some p /\ Name (Proxy c) = name /\
    length (registered g') = (length (registered g) + 3)%nat.
Proof.
  intros Hc Hg. prun. rewrite Hc in Hg. run.
  destruct g as [px cs hp lk rg lg]; cbn in *.
  destruct (first_match name px) as [proxy|] eqn:Hf.
  - pose proof (first_match_name _ _ _ Hf) as Hn.
    destruct lk as [[|]|]; prun; try discriminate.
    all: rewrite (loop_found _ _ _ _ Hf) in Hg; prun.
    all: repeat (inner_case_in Hg; prun; try discriminate).
    all: rewrite lookup_insert_eq in Hg; simplify_eq; cbn.
    all: eexists; split; [by apply list_lookup_middle|].
    all: split; [split; cbn; intros; try congruence; eauto using initInternal_ok|].
    all: split; [by rewrite lookup_insert_eq|].
    all: split; [done|].
    all: rewrite !length_app; cbn; lia.
  - destruct lk as [[|]|]; prun; try discriminate.
    all: rewrite (loop_not_found _ _ _ Hf) in Hg; prun; discriminate.
Qed.

(** Called one after the other, [Get] builds once: the second call
    returns the instance the first one stored and changes nothing. *)
Lemma Get_sequential_builds_once g name p g' :
  Caches g !! name = None ->
  exec (Get name) g = (Ret (Some p), g') ->
  exec (Get name) g' = (Ret (Some p), g').
Proof.
  intros Hc Hg.
  destruct (Get_builds_complete g name p g' Hc Hg) as (c & _ & _ & Hp & _).
  by apply Get_existing.
Qed.

(** A goroutine that runs alone goes through [Get] as the sequential
    reading of the code does. *)
Lemma lone_goroutine_runs_Get g name :
  lock_free g ->
  run_schedule name [0; 0; 0; 0]%nat ([AtCheck], g) =
    ([match fst (exec (Get name) g) with
      | Ret r => Finished r
      | Panicked why => Crashed why
      end],
     snd (exec (Get name) g)).
Proof.
  intros Hl. unfold lock_free in Hl.
  destruct g as [px cs hp lk rg lg]; cbn in Hl.
  cbv beta iota zeta delta
    [run_schedule run_schedule_with fold_left sched_step_with
     thread_step_with Get buildInstance
     lock_init Lock exec call bind gets modify pure return_ panic is_nil
     set_lock].
  cbn [fst snd Caches cacheLock Proxies heap registered plogs lookup
       list_lookup insert list_insert].
  destruct (cs !! name) as [p|] eqn:Hp; cbn; [by rewrite Hp|].
  destruct lk as [[|]|]; try done; cbn.
  all: match goal with
       | |- context [critical ?n ?g0] =>
           destruct (critical n g0) as [[r|r|w] g2]
       end; reflexivity.
Qed.

(** C7. If the constructor of an enabled tier fails, [Get] returns nil
    and leaves the registry map, the allocated instances and the
    registered collectors as they were; and an instance that [Get]
    does build and store has every tier its configuration enables. *)
Theorem C7_construction_is_all_or_nothing :
  (forall g name proxy,
     lock_free g ->
     Caches g !! name = None ->
     first_match name (Proxies g) = Some proxy ->
     internal_fails (L:=L) proxy \/ external_fails (R:=R) proxy ->
     exists g',
       exec (Get name) g = (Ret None, g') /\
       Caches g' = Caches g /\ heap g' = heap g /\
       registered g' = registered g) /\
  (forall g name p g',
     Caches g !! name = None ->
     exec (Get name) g = (Ret (Some p), g') ->
     exists c, heap g' !! p = Some c /\ complete c /\
               Caches g' !! name = Some p).
Proof.
  split.
  - apply Get_construction_fails.
  - intros g name p g' Hc Hg.
    destruct (Get_builds_complete g name p g' Hc Hg) as (c & ? & ? & ? & _).
    eauto.
Qed.

End RegistryProperties.

Section HandlerProperties.
Context {L R : Type} `{!LocalTier L} `{!RemoteTier R} `{!PacketCodec} `{!Env}.

(** C5. For a name that no configuration matches, [Get] logs and
    returns nil, as claimed; but the handler does not treat that nil
    as "caching disabled": it calls [Fetch] on it, and every request
    whose tile URL builds ends in a nil-pointer panic. *)
Theorem C5_handler_panics_on_nil_cache
    (p : ProxyConfig) (req : Request) (h : HSt L R) (url : string) :
  lock_free (proc h) ->
  Caches (proc h) !! Name p = None ->
  first_match (Name p) (Proxies (proc h)) = None ->
  req_tileUrl req = (url, None) ->
  let g1 := add_log (LogError ECacheName [AStr (Name p)])
              (set_lock (Some false) (proc h)) in
  exec (Get (Name p)) (proc h) = (Ret None, g1) /\
  exec (handler p req) h =
    (Panicked "nil pointer dereference: c",
     {| proc := g1; ctx := ctx h; pending := pending h |}).
Proof.
  intros Hl Hc Hf Hu g1.
  pose proof (Get_unknown_name (proc h) (Name p) Hl Hc Hf) as Hg.
  split; [exact Hg|].
  unfold handler. rewrite Hu.
  cbv beta iota zeta delta [exec bind pure in_proc on_cache deref panic].
  fold (exec (Get (Name p)) (proc h)). rewrite Hg. reflexivity.
Qed.

End HandlerProperties.

(** ** The code on concrete inputs *)

(** C3. With the local tier disabled, a remote error other than
    not-found does not make [Fetch] return absent: the call panics. *)
Theorem C3_remote_error_without_local_tier :
  exec (Fetch sample_key) s_remote_down =
    (Panicked "nil pointer dereference: err.Error()", s_remote_down) /\
  fst (exec (Fetch sample_key) s_remote_down) <> Ret None.
Proof. split; [reflexivity | discriminate]. Qed.

(** The other three cases of the metrics contract, on the same stores. *)
Example local_error_leaves_metrics :
  let s := st_of (osm true true) (Some (mem_of [] (Some timeout_err)))
                 (Some (redis_of [] None)) in
  fst (exec (Fetch sample_key) s) = Ret None /\
  CMetrics (cache (snd (exec (Fetch sample_key) s))) = CMetrics (cache s).
Proof. split; reflexivity. Qed.

Example remote_not_found_counts_one_miss :
  let s := st_of (osm true true) (Some (mem_of [] None)) (Some (redis_of [] None)) in
  fst (exec (Fetch sample_key) s) = Ret None /\
  CMetrics (cache (snd (exec (Fetch sample_key) s))) =
    {| CacheHits := 0; CacheMisses := 1 |}.
Proof. split; reflexivity. Qed.

Example remote_error_after_local_miss_leaves_metrics :
  let s := st_of (osm true true) (Some (mem_of [] None))
                 (Some (redis_of [] (Some timeout_err))) in
  fst (exec (Fetch sample_key) s) = Ret None /\
  CMetrics (cache (snd (exec (Fetch sample_key) s))) = CMetrics (cache s).
Proof. split; reflexivity. Qed.

(** C2. Two goroutines that both find [Caches["osm"]] nil both run the
    construction: the mutex only makes them take turns, nothing re-checks
    the map once the lock is held. The second construction registers the
    same three collectors again, which the metrics registry refuses with
    a panic. *)
Theorem C2_two_first_callers_both_build :
  let w := run_schedule "osm" two_first_callers
             ([AtCheck; AtCheck], proc_of [osm true true]) in
  run_schedule "osm" [0; 1]%nat ([AtCheck; AtCheck], proc_of [osm true true]) =
    ([AtLockInit; AtLockInit], proc_of [osm true true]) /\
  fst w = [Finished (Some 0%nat);
           Crashed "duplicate metrics collector registration attempted"].
Proof. split; reflexivity. Qed.

(** With the re-check the specification asks for, the same schedule ends
    with one instance, returned to both callers, and one registration of
    each collector. *)
Example rechecked_first_callers_build_once :
  let w := run_schedule_with critical_rechecked "osm" two_first_callers
             ([AtCheck; AtCheck], proc_of [osm true true]) in
  fst w = [Finished (Some 0%nat); Finished (Some 0%nat)] /\
  length (heap (snd w)) = 1%nat /\ length (registered (snd w)) = 3%nat.
Proof. repeat split; reflexivity. Qed.

(** The same nil reaches the handler when a tier cannot be constructed. *)
Example handler_panics_when_redis_is_unreachable :
  fst (exec (handler unreachable sample_request) (h_of (proc_of [unreachable]))) =
    Panicked "nil pointer dereference: c".
Proof. reflexivity. Qed.

(** An endpoint whose cache exists serves a miss from upstream and
    schedules the populate. *)
Example handler_miss_populates :
  let h := snd (exec (handler (osm true true) sample_request)
                     (h_of (proc_of [osm true true]))) in
  fst (exec (handler (osm true true) sample_request)
            (h_of (proc_of [osm true true]))) = Ret None /\
  pending h = [GoEncodeSet (Some 0%nat) sample_key (Some [x89; x50; x4e; x47])
                 [("Content-Type", "image/png")]].
Proof. split; reflexivity. Qed.

(** *** Instances of the general theorems *)

Lemma complete_sample p i x :
  complete (cache (st_of p (Some i) (Some x))).
Proof. split; reflexivity. Qed.

Lemma C1_witness :
  (exists s',
     exec (Fetch sample_key) s_corrupt = (Ret None, s') /\
     (MemEnabled (PCache (Proxy (cache s_corrupt))) = true ->
      exists i, internal (cache s_corrupt) = Some i /\
                internal (cache s') = Some (fst (bc_Delete i sample_key))) /\
     (RedisEnabled (PCache (Proxy (cache s_corrupt))) = true ->
      exists x, external (cache s_corrupt) = Some x /\
                (~ local_delete_failed s_corrupt sample_key ->
                 external (cache s') = Some (fst (rc_Del x sample_key))) /\
                (local_delete_failed s_corrupt sample_key ->
                 external (cache s') = Some x))) /\
  (exists b, Some good_tile = Some b /\ ~ corrupt b).
Proof.
  split.
  - apply (proj1 C1_corrupt_bytes_never_served s_corrupt sample_key corrupt_tile).
    + apply complete_sample.
    + eapply found_local; reflexivity.
    + right. reflexivity.
  - apply (proj2 C1_corrupt_bytes_never_served s_both sample_key (Some good_tile)
             (snd (exec (Fetch sample_key) s_both))).
    reflexivity.
Defined.

(** In the witness the deletes do happen: after [Fetch] the key is in
    neither tier. *)
Example corrupt_blob_is_wiped :
  let s' := snd (exec (Fetch sample_key) s_corrupt) in
  fst (exec (Fetch sample_key) s_corrupt) = Ret None /\
  internal (cache s') = Some (mem_of [] None) /\
  external (cache s') = Some (redis_of [] None).
Proof. repeat split; reflexivity. Qed.

(** The claim as worded fails when the local delete fails: [Fetch] finds
    the corrupt blob in the local tier and returns absent, but
    [Invalidate] returns at the failed local delete, so the enabled
    remote tier has not had the key deleted and still answers it. *)
Lemma C1_counterexample :
  complete (cache s_frozen) /\
  found s_frozen sample_key corrupt_tile /\
  corrupt corrupt_tile /\
  exists s',
    exec (Fetch sample_key) s_frozen = (Ret None, s') /\
    ~ invalidated_everywhere s_frozen sample_key s' /\
    RedisEnabled (PCache (Proxy (cache s'))) = true /\
    exists x', external (cache s') = Some x' /\
               Bytes (rc_Get x' sample_key) = (Some corrupt_tile, None).
Proof.
  split; [split; reflexivity|].
  split; [eapply found_local; reflexivity|].
  split; [right; reflexivity|].
  exists (snd (exec (Fetch sample_key) s_frozen)).
  split; [reflexivity|]. split.
  - intros [_ Hx]. destruct (Hx eq_refl) as (x & Hx0 & Hx1).
    injection Hx0 as <-.
    apply (f_equal (fun o => r ← o; redis_keys r !! sample_key)) in Hx1.
    vm_compute in Hx1. discriminate.
  - split; [reflexivity|]. eexists. split; reflexivity.
Qed.

Lemma C4_witness :
  (exists s',
     exec (run_task (GoSet sample_key (Some good_tile) [true])) s_remote_hit
       = (Ret tt, s') /\
     external (cache s') = external (cache s_remote_hit) /\
     spawned s' = spawned s_remote_hit /\
     internal (cache s') =
       Some (fst (bc_Set (mem_of [] None) sample_key (Some good_tile)))) /\
  (exists ex,
     spawned (snd (exec (Fetch sample_key) s_remote_hit)) =
       (spawned s_remote_hit ++ ex ++ [GoSet sample_key (Some good_tile) [true]])%list /\
     (ex = [] \/ ex = [GoExpire sample_key 3600])).
Proof.
  split.
  - apply (proj2 C4_refresh_on_read_is_local_only s_remote_hit sample_key
             (Some good_tile) []).
    apply complete_sample.
  - apply (proj1 C4_refresh_on_read_is_local_only s_remote_hit sample_key
             (Some good_tile) (snd (exec (Fetch sample_key) s_remote_hit))).
    reflexivity.
Defined.

Lemma C6_witness :
  snd (bc_Delete (mem_of [] None) sample_key) = Some ErrEntryNotFound /\
  exists s2,
    exec (Invalidate sample_key) (snd (exec (Invalidate sample_key) s_both))
      = (Ret None, s2).
Proof.
  split; [reflexivity|].
  apply (C6_Invalidate_twice s_both sample_key
           (fst (exec (Invalidate sample_key) s_both))
           (snd (exec (Invalidate sample_key) s_both))).
  - apply complete_sample.
  - reflexivity.
  - split.
    + intros i Hi. vm_compute in Hi. injection Hi as <-. right. reflexivity.
    + intros x Hx. vm_compute in Hx. injection Hx as <-. reflexivity.
Defined.

Lemma C7_witness :
  exists g',
    exec (Get "sat") (proc_of [osm true true; unreachable]) = (Ret None, g') /\
    Caches g' = Caches (proc_of [osm true true; unreachable]) /\
    heap g' = heap (proc_of [osm true true; unreachable]) /\
    registered g' = registered (proc_of [osm true true; unreachable]).
Proof.
  apply (proj1 C7_construction_is_all_or_nothing
           (proc_of [osm true true; unreachable]) "sat" unreachable).
  - discriminate.
  - reflexivity.
  - reflexivity.
  - right. split; [reflexivity|]. right.
    eexists _, _. split; reflexivity.
Defined.

Lemma C8_witness :
  exec (Fetch sample_key) s_no_tier =
    (Ret None,
     add_log (LogDebug DCacheMissExt [AStr sample_key])
       (with_cache misses_Inc s_no_tier)) /\
  (forall tile internalOnly,
     exec (Set_ sample_key tile internalOnly) s_no_tier =
       (Ret tt,
        add_log (LogDebug DCacheSet [AStr sample_key; AInt (len tile)]) s_no_tier)).
Proof.
  apply (C8_no_tier_enabled s_no_tier sample_key); reflexivity.
Defined.

Lemma C10_witness :
  exec (Fetch sample_key) s_remote_down =
    (Panicked "nil pointer dereference: err.Error()", s_remote_down) /\
  ~ (exists r s', exec (Fetch sample_key) s_remote_down = (Ret r, s')).
Proof.
  apply (C10_Fetch_panics_on_remote_error s_remote_down sample_key
           (redis_of [] (Some timeout_err)) timeout_err);
    [reflexivity | reflexivity | reflexivity | reflexivity | discriminate].
Defined.

Lemma C5_witness :
  fst (exec (Get "ghost") (proc_of [osm true true])) = Ret None /\
  fst (exec (handler ghost sample_request) (h_of (proc_of [osm true true]))) =
    Panicked "nil pointer dereference: c".
Proof.
  destruct (C5_handler_panics_on_nil_cache ghost sample_request
              (h_of (proc_of [osm true true]))
              "https://ghost.example/1/2/3.png") as [Hg Hh].
  - discriminate.
  - reflexivity.
  - reflexivity.
  - reflexivity.
  - rewrite Hh. split; reflexivity.
Defined.
(** * Properties of the metrics *)

(** ** binary64 arithmetic on small integers *)
Lemma fexp_eq x : fexp prec emax x = Z.max (x - 53) (-1074).
Proof. reflexivity. Qed.

Lemma digits2_pos_size p : digits2_pos p = Pos.size p.
Proof. induction p as [p IH|p IH|]; cbn; congruence. Qed.

Lemma digits2_pos_bounds p :
  2 ^ (Z.pos (digits2_pos p) - 1) <= Z.pos p < 2 ^ Z.pos (digits2_pos p).
Proof.
  rewrite digits2_pos_size.
  pose proof (Pos.size_gt p) as Hgt. pose proof (Pos.size_le p) as Hle.
  apply Pos2Z.pos_lt_pos in Hgt. apply Pos2Z.pos_le_pos in Hle.
  rewrite Pos2Z.inj_pow in Hgt, Hle.
  replace (Z.pos (Pos.size p)) with (Z.succ (Z.pos (Pos.size p) - 1)) in Hle at 1 by lia.
  rewrite Z.pow_succ_r in Hle by lia.
  lia.
Qed.

Lemma digits2_pos_unique p d :
  2 ^ (d - 1) <= Z.pos p < 2 ^ d -> Z.pos (digits2_pos p) = d.
Proof.
  intros [Hlo Hhi]. pose proof (digits2_pos_bounds p) as [Hlo' Hhi'].
  assert (0 < d).
  { destruct (Z_lt_le_dec 0 d) as [|Hd]; [done|].
    assert (2 ^ d <= 2 ^ 0) by (apply Z.pow_le_mono_r; lia).
    change (2 ^ 0) with 1 in *. lia. }
  assert (Z.pos (digits2_pos p) - 1 < d).
  { apply (Z.pow_lt_mono_r_iff 2); lia. }
  assert (d - 1 < Z.pos (digits2_pos p)).
  { apply (Z.pow_lt_mono_r_iff 2); lia. }
  lia.
Qed.

Lemma Zpos_iter_xO p k : Z.pos (Pos.iter xO p k) = Z.pos p * 2 ^ Z.pos k.
Proof.
  rewrite <- Z.shiftl_mul_pow2 by lia. unfold Z.shiftl.
  apply (Pos.iter_swap_gen _ _ Z.pos xO (Z.mul 2)). reflexivity.
Qed.

Lemma iter_pos_eq {A} (f : A -> A) n x :
  SpecFloat.iter_pos f n x = Pos.iter f x n.
Proof.
  revert x. induction n as [n IH|n IH|]; intros x; cbn.
  - rewrite !IH, !Pos.iter_swap. reflexivity.
  - rewrite !IH. reflexivity.
  - reflexivity.
Qed.

Lemma iter_shr_1_exact k q :
  Pos.iter shr_1 (exact_record (Z.pos (Pos.iter xO q k))) k = exact_record (Z.pos q).
Proof.
  revert q. induction k as [|k IH] using Pos.peano_ind; intros q.
  - reflexivity.
  - rewrite (Pos.iter_succ k _ xO), <- Pos.iter_swap.
    rewrite Pos.iter_succ, IH. reflexivity.
Qed.

Lemma shr_exact q k m e :
  Z.pos m = Z.pos q * 2 ^ Z.pos k ->
  shr (exact_record (Z.pos m)) e (Z.pos k) = (exact_record (Z.pos q), e + Z.pos k).
Proof.
  intros Hm. rewrite <- Zpos_iter_xO in Hm. injection Hm as ->.
  unfold shr. by rewrite iter_pos_eq, iter_shr_1_exact.
Qed.

Lemma shr_fexp_canonical M e :
  Z.pos (digits2_pos M) = 53 -> -1074 <= e ->
  shr_fexp prec emax (Z.pos M) e loc_Exact = (exact_record (Z.pos M), e).
Proof.
  intros Hd He. unfold shr_fexp. cbn [Zdigits2 shr_record_of_loc].
  rewrite Hd, fexp_eq.
  replace (Z.max (53 + e - 53) (-1074) - e) with 0 by lia.
  reflexivity.
Qed.

Lemma binary_round_aux_shifted sx mx ex lx M e :
  shr_fexp prec emax mx ex lx = (exact_record (Z.pos M), e) ->
  Z.pos (digits2_pos M) = 53 -> -1074 <= e <= 971 ->
  binary_round_aux prec emax sx mx ex lx = S754_finite sx M e.
Proof.
  intros Hs Hd He. unfold binary_round_aux. rewrite Hs.
  cbn [exact_record shr_m shr_r shr_s loc_of_shr_record round_nearest_even].
  rewrite shr_fexp_canonical by lia.
  cbn [exact_record shr_m].
  replace (e <=? emax - prec) with true; [done|].
  symmetry. apply Z.leb_le. change (emax - prec) with 971. lia.
Qed.

Lemma shl_align_spec m e e' :
  e' <= e ->
  exists m', shl_align m e e' = (m', e') /\ Z.pos m' = Z.pos m * 2 ^ (e - e').
Proof.
  intros He. unfold shl_align.
  destruct (e' - e) as [|d|d] eqn:Hd; [|lia|].
  - assert (e' = e) as -> by lia. exists m. rewrite Z.sub_diag. split; [done|lia].
  - exists (Pos.iter xO m d). split; [done|].
    rewrite Zpos_iter_xO. do 2 f_equal. lia.
Qed.

Lemma shl_align_none m e e' : e <= e' -> shl_align m e e' = (m, e).
Proof.
  intros He. unfold shl_align. destruct (e' - e) eqn:Hd; [done|done|lia].
Qed.

Lemma pow2_pos k : 0 <= k -> 0 < 2 ^ k.
Proof. intros. apply Z.pow_pos_nonneg; lia. Qed.

Lemma digits2_pos_shifted c m k :
  0 <= k -> Z.pos m = Z.pos c * 2 ^ k ->
  Z.pos (digits2_pos m) = Z.pos (digits2_pos c) + k.
Proof.
  intros Hk Hm. apply digits2_pos_unique. rewrite Hm.
  pose proof (digits2_pos_bounds c) as [Hlo Hhi].
  pose proof (pow2_pos k Hk).
  replace (Z.pos (digits2_pos c) + k - 1) with (Z.pos (digits2_pos c) - 1 + k) by lia.
  rewrite !Z.pow_add_r by lia. nia.
Qed.

Lemma binary_round_exact c m k :
  Z.pos (digits2_pos c) <= 53 -> 0 <= k ->
  Z.pos m = Z.pos c * 2 ^ k ->
  binary_round prec emax false m (- k) = canon c.
Proof.
  intros Hc Hk Hm. unfold binary_round, canon.
  set (d := Z.pos (digits2_pos c)) in *.
  assert (Hdm : Z.pos (digits2_pos m) = d + k) by by apply digits2_pos_shifted.
  assert (Hd1 : 1 <= d) by (unfold d; lia).
  rewrite Hdm, fexp_eq.
  replace (Z.max (d + k + - k - 53) (-1074)) with (d - 53) by lia.
  set (M := Z.to_pos (Z.pos c * 2 ^ (53 - d))).
  assert (HM : Z.pos M = Z.pos c * 2 ^ (53 - d)).
  { unfold M. rewrite Z2Pos.id; [done|]. pose proof (pow2_pos (53 - d)). nia. }
  assert (HdM : Z.pos (digits2_pos M) = 53).
  { rewrite (digits2_pos_shifted c M (53 - d)); [fold d; lia|lia|done]. }
  destruct (Z_le_gt_dec (d - 53) (- k)) as [Hle|Hgt].
  - destruct (shl_align_spec m (- k) (d - 53) Hle) as (m' & -> & Hm').
    assert (m' = M) as ->.
    { apply Pos2Z.inj. rewrite Hm', HM, Hm, <- Z.mul_assoc, <- Z.pow_add_r by lia.
      do 2 f_equal. lia. }
    apply binary_round_aux_shifted; [|done|lia].
    apply shr_fexp_canonical; [done|lia].
  - rewrite shl_align_none by lia.
    apply binary_round_aux_shifted; [|done|lia].
    unfold shr_fexp. cbn [Zdigits2 shr_record_of_loc].
    rewrite Hdm, fexp_eq.
    replace (Z.max (d + k + - k - 53) (-1074) - - k) with (d - 53 + k) by lia.
    destruct (d - 53 + k) as [|n|n] eqn:Hn; [lia| |lia].
    rewrite (shr_exact M n m); [f_equal; lia|].
    rewrite HM, Hm, <- Z.mul_assoc, <- Z.pow_add_r by lia.
    do 2 f_equal. lia.
Qed.

Lemma float64_of_pos c :
  Z.pos (digits2_pos c) <= 53 -> float64_of (Z.pos c) = canon c.
Proof.
  intros Hc. unfold float64_of, binary_normalize.
  apply (binary_round_exact c c 0); [done|done|lia].
Qed.

Lemma digits2_pos_mono a b :
  (a <= b)%positive -> Z.pos (digits2_pos a) <= Z.pos (digits2_pos b).
Proof.
  intros Hab.
  pose proof (digits2_pos_bounds a) as [Hlo _].
  pose proof (digits2_pos_bounds b) as [_ Hhi].
  assert (Z.pos (digits2_pos a) - 1 < Z.pos (digits2_pos b)); [|lia].
  apply (Z.pow_lt_mono_r_iff 2); lia.
Qed.

Lemma digits2_pos_small c : Z.pos c < 2 ^ 53 -> Z.pos (digits2_pos c) <= 53.
Proof.
  intros Hc. pose proof (digits2_pos_bounds c) as [Hlo _].
  assert (Z.pos (digits2_pos c) - 1 < 53); [|lia].
  apply (Z.pow_lt_mono_r_iff 2); lia.
Qed.

Lemma canon_valid c :
  Z.pos (digits2_pos c) <= 53 -> valid_binary (canon c) = true.
Proof.
  intros Hc. unfold canon, valid_binary, bounded, canonical_mantissa.
  set (d := Z.pos (digits2_pos c)) in *.
  assert (Hd1 : 1 <= d) by (unfold d; lia).
  rewrite (digits2_pos_shifted c _ (53 - d)); [fold d|lia|].
  2: { rewrite Z2Pos.id; [done|]. pose proof (pow2_pos (53 - d)). nia. }
  rewrite fexp_eq. change (emax - prec) with 971.
  apply andb_true_intro. split; [apply Z.eqb_eq|apply Z.leb_le]; lia.
Qed.

Lemma SFadd_canon a b :
  Z.pos (digits2_pos (a + b)) <= 53 ->
  SFadd prec emax (canon a) (canon b) = canon (a + b).
Proof.
  intros Hc.
  pose proof (digits2_pos_mono a (a + b) ltac:(lia)) as Ha.
  pose proof (digits2_pos_mono b (a + b) ltac:(lia)) as Hb.
  unfold canon at 1 2. unfold SFadd. cbn [cond_Zopp].
  set (da := Z.pos (digits2_pos a)) in *.
  set (db := Z.pos (digits2_pos b)) in *.
  assert (1 <= da) by (unfold da; lia). assert (1 <= db) by (unfold db; lia).
  set (ez := Z.min (da - 53) (db - 53)).
  destruct (shl_align_spec (Z.to_pos (Z.pos a * 2 ^ (53 - da))) (da - 53) ez)
    as (ma & -> & Hma); [lia|].
  destruct (shl_align_spec (Z.to_pos (Z.pos b * 2 ^ (53 - db))) (db - 53) ez)
    as (mb & -> & Hmb); [lia|].
  rewrite Z2Pos.id in Hma by (pose proof (pow2_pos (53 - da)); nia).
  rewrite Z2Pos.id in Hmb by (pose proof (pow2_pos (53 - db)); nia).
  rewrite <- Z.mul_assoc, <- Z.pow_add_r in Hma, Hmb by lia.
  cbn [fst binary_normalize Z.add].
  replace ez with (- - ez) by lia.
  apply binary_round_exact; [done|lia|].
  rewrite Pos2Z.inj_add, Hma, Hmb, Pos2Z.inj_add, Z.mul_add_distr_r.
  f_equal; do 2 f_equal; lia.
Qed.

Lemma float64_of_add x y :
  0 <= x -> 0 <= y -> x + y < 2 ^ 53 ->
  SFadd prec emax (float64_of x) (float64_of y) = float64_of (x + y).
Proof.
  intros Hx Hy Hxy.
  destruct x as [|a|a]; [|destruct y as [|b|b]|]; try lia.
  - destruct y as [|b|b]; [done| |lia].
    rewrite Z.add_0_l, float64_of_pos by (apply digits2_pos_small; lia). done.
  - rewrite Z.add_0_r, float64_of_pos by (apply digits2_pos_small; lia). done.
  - assert (Hs : Z.pos (digits2_pos (a + b)) <= 53)
      by (apply digits2_pos_small; lia).
    pose proof (digits2_pos_mono a (a + b) ltac:(lia)).
    pose proof (digits2_pos_mono b (a + b) ltac:(lia)).
    change (Z.pos a + Z.pos b) with (Z.pos (a + b)).
    rewrite !float64_of_pos by lia. by apply SFadd_canon.
Qed.

Lemma float64_of_valid x :
  0 <= x < 2 ^ 53 -> valid_binary (float64_of x) = true.
Proof.
  intros [Hx Hlt]. destruct x as [|c|c]; [done| |lia].
  assert (Z.pos (digits2_pos c) <= 53) by (apply digits2_pos_small; lia).
  rewrite float64_of_pos by done. by apply canon_valid.
Qed.

Lemma GetMetricValue_spec n :
  Z.of_nat n < 2 ^ 53 ->
  Prim2SF (GetMetricValue n) = float64_of (Z.of_nat n).
Proof.
  intros Hn. unfold GetMetricValue.
  rewrite Z.mod_small by (split; [lia|]; transitivity (2 ^ 53); [done|reflexivity]).
  apply Prim2SF_SF2Prim, float64_of_valid. lia.
Qed.

Lemma HitRate_spec m :
  Z.of_nat (CacheHits m) + Z.of_nat (CacheMisses m) < 2 ^ 53 ->
  Prim2SF (HitRate m) =
    SFdiv prec emax (float64_of (Z.of_nat (CacheHits m)))
      (float64_of (Z.of_nat (CacheHits m) + Z.of_nat (CacheMisses m))).
Proof.
  intros Hb. unfold HitRate. cbv zeta.
  rewrite div_spec, add_spec, !GetMetricValue_spec by lia.
  unfold SF64div, SF64add. rewrite float64_of_add by lia. reflexivity.
Qed.

(** Rounding a non-negative mantissa never gives NaN. *)
Lemma shr_1_nonneg r : 0 <= shr_m r -> 0 <= shr_m (shr_1 r).
Proof. destruct r as [[|[p|p|]|p] r s]; cbn; lia. Qed.

Lemma shr_nonneg r e n : 0 <= shr_m r -> 0 <= shr_m (fst (shr r e n)).
Proof.
  intros Hr. unfold shr. destruct n as [|k|k]; cbn [fst]; [done| |done].
  rewrite iter_pos_eq. revert r Hr.
  induction k as [|k IH] using Pos.peano_ind; intros r Hr.
  - by apply shr_1_nonneg.
  - rewrite Pos.iter_succ. by apply shr_1_nonneg, IH.
Qed.

Lemma shr_fexp_nonneg m e l :
  0 <= m -> 0 <= shr_m (fst (shr_fexp prec emax m e l)).
Proof.
  intros Hm. unfold shr_fexp. apply shr_nonneg. by destruct l as [|[]].
Qed.

Lemma round_nearest_even_nonneg m l : 0 <= m -> 0 <= round_nearest_even m l.
Proof.
  intros Hm. destruct l as [|[]]; cbn; [done| |done|lia].
  destruct (Z.even m); lia.
Qed.

Lemma binary_round_aux_not_nan sx mx ex lx :
  0 <= mx -> binary_round_aux prec emax sx mx ex lx <> S754_nan.
Proof.
  intros Hm. unfold binary_round_aux.
  pose proof (shr_fexp_nonneg mx ex lx Hm) as H1.
  destruct (shr_fexp prec emax mx ex lx) as [mrs' e']. cbn [fst] in H1.
  pose proof (shr_fexp_nonneg _ e' loc_Exact
                (round_nearest_even_nonneg _ (loc_of_shr_record mrs') H1)) as H2.
  destruct (shr_fexp prec emax _ e' loc_Exact) as [mrs'' e'']. cbn [fst] in H2.
  destruct (shr_m mrs'') as [|p|p]; [done| |lia].
  by destruct (e'' <=? emax - prec).
Qed.

Lemma SFdiv_core_binary_nonneg m1 e1 m2 e2 :
  0 <= fst (fst (SFdiv_core_binary prec emax (Z.pos m1) e1 (Z.pos m2) e2)).
Proof.
  unfold SFdiv_core_binary.
  set (s := _ - _ - _).
  set (m' := match s with Z.pos _ => Z.shiftl (Z.pos m1) s | 0 => Z.pos m1 | Z.neg _ => 0 end).
  assert (Hm' : 0 <= m').
  { unfold m'. destruct s; [lia| |lia]. apply Z.shiftl_nonneg. lia. }
  pose proof (Z_div_mod m' (Z.pos m2) ltac:(lia)) as Hdiv.
  destruct (Z.div_eucl m' (Z.pos m2)) as [q r]. cbn [fst]. nia.
Qed.

Lemma SFdiv_canon_not_nan x c :
  0 <= x < 2 ^ 53 ->
  SFdiv prec emax (float64_of x) (canon c) <> S754_nan.
Proof.
  intros [Hx Hlt]. destruct x as [|a|a]; [done| |lia].
  rewrite float64_of_pos by (apply digits2_pos_small; lia).
  unfold canon, SFdiv.
  pose proof (SFdiv_core_binary_nonneg
                (Z.to_pos (Z.pos a * 2 ^ (53 - Z.pos (digits2_pos a))))
                (Z.pos (digits2_pos a) - 53)
                (Z.to_pos (Z.pos c * 2 ^ (53 - Z.pos (digits2_pos c))))
                (Z.pos (digits2_pos c) - 53)) as Hq.
  destruct (SFdiv_core_binary _ _ _ _ _ _) as [[mz ez] lz]. cbn [fst] in Hq.
  by apply binary_round_aux_not_nan.
Qed.

Lemma SFeqb_refl x : x <> S754_nan -> SFeqb x x = true.
Proof.
  intros Hx. unfold SFeqb, SFcompare.
  destruct x as [[]|[]| |[] m e]; try done.
  all: by rewrite Z.compare_refl, Pos.compare_cont_refl.
Qed.

Lemma is_nan_spec f : is_nan f = true <-> Prim2SF f = S754_nan.
Proof.
  unfold is_nan. rewrite FloatAxioms.eqb_spec. split.
  - intros Hn. destruct (Prim2SF f) as [s|s| |s m e] eqn:Hf; [| |done|].
    + by rewrite (SFeqb_refl (S754_zero s)) in Hn.
    + by rewrite (SFeqb_refl (S754_infinity s)) in Hn.
    + by rewrite (SFeqb_refl (S754_finite s m e)) in Hn.
  - by intros ->.
Qed.

Lemma HitRate_nan_iff m :
  Z.of_nat (CacheHits m) + Z.of_nat (CacheMisses m) < 2 ^ 53 ->
  is_nan (HitRate m) = true <-> CacheHits m = 0%nat /\ CacheMisses m = 0%nat.
Proof.
  intros Hb. rewrite is_nan_spec, HitRate_spec by done. split.
  - intros Hn.
    destruct (Z.of_nat (CacheHits m) + Z.of_nat (CacheMisses m)) as [|c|c] eqn:Hs;
      [lia| |lia].
    exfalso. revert Hn. rewrite (float64_of_pos c) by (apply digits2_pos_small; lia).
    apply SFdiv_canon_not_nan. lia.
  - intros [-> ->]. reflexivity.
Qed.

Lemma canon_digits c :
  Z.pos (digits2_pos c) <= 53 ->
  Z.pos (digits2_pos (Z.to_pos (Z.pos c * 2 ^ (53 - Z.pos (digits2_pos c))))) = 53.
Proof.
  intros Hc. set (d := Z.pos (digits2_pos c)) in *.
  assert (Hd1 : 1 <= d) by (unfold d; lia).
  rewrite (digits2_pos_shifted c _ (53 - d)); [fold d; lia|lia|].
  rewrite Z2Pos.id; [done|]. pose proof (pow2_pos (53 - d)). nia.
Qed.

Lemma SFdiv_canon_self c :
  Z.pos (digits2_pos c) <= 53 ->
  SFdiv prec emax (canon c) (canon c) = Prim2SF 1.
Proof.
  intros Hc. unfold canon, SFdiv, SFdiv_core_binary. cbn [Zdigits2 xorb].
  rewrite canon_digits by done.
  set (M := Z.to_pos _). set (e := _ - 53).
  replace (53 + e - (53 + e)) with 0 by lia.
  replace (e - e) with 0 by lia.
  change (Z.min (fexp prec emax 0) 0) with (-53).
  change (0 - -53) with 53.
  assert (Hdiv : Z.div_eucl (Z.shiftl (Z.pos M) 53) (Z.pos M) = (2 ^ 53, 0)).
  { rewrite Z.shiftl_mul_pow2 by lia.
    pose proof (Z_div_mod (Z.pos M * 2 ^ 53) (Z.pos M) ltac:(lia)) as Hd.
    destruct (Z.div_eucl _ _) as [q r]. destruct Hd as [Heq Hr].
    assert (q = 2 ^ 53) as -> by nia. f_equal. lia. }
  cbv iota. change (IntDef.Z.div_eucl ?a ?b) with (Z.div_eucl a b). rewrite Hdiv.
  assert (Hloc : new_location (Z.pos M) 0 = loc_Exact).
  { unfold new_location. by destruct (Z.even (Z.pos M)). }
  rewrite Hloc. reflexivity.
Qed.

(** *** The hit-rate closure *)

Lemma HitRate_zero m :
  Z.of_nat (CacheHits m) = 0 -> 0 < Z.of_nat (CacheMisses m) < 2 ^ 53 ->
  HitRate m = 0%float.
Proof.
  intros Hh Hk. apply Prim2SF_inj. rewrite HitRate_spec by lia.
  rewrite Hh, Z.add_0_l.
  destruct (Z.of_nat (CacheMisses m)) as [|c|c]; [lia| |lia].
  rewrite (float64_of_pos c) by (apply digits2_pos_small; lia). reflexivity.
Qed.

Lemma HitRate_one m :
  Z.of_nat (CacheMisses m) = 0 -> 0 < Z.of_nat (CacheHits m) < 2 ^ 53 ->
  HitRate m = 1%float.
Proof.
  intros Hk Hh. apply Prim2SF_inj. rewrite HitRate_spec by lia.
  rewrite Hk, Z.add_0_r.
  destruct (Z.of_nat (CacheHits m)) as [|c|c]; [lia| |lia].
  assert (Z.pos (digits2_pos c) <= 53) by (apply digits2_pos_small; lia).
  rewrite (float64_of_pos c) by done. by apply SFdiv_canon_self.
Qed.

(** C9. The gauge is the closure's expression on the two counter
    readings, in binary64 arithmetic, whenever it is observed. With no
    request counted yet (both counters zero) it reports NaN. While the
    counters add up to less than 2^53, the readings and their sum are
    exact, so the gauge is the IEEE quotient of the integers [hits] and
    [hits + misses], rounded once; it is NaN only when both counters
    are zero, 0 when there are only misses and 1 when there are only
    hits. *)
Theorem C9_hit_rate_is_quotient_of_counters (m : Metrics) :
  HitRate m =
    (GetMetricValue (CacheHits m) /
       (GetMetricValue (CacheHits m) + GetMetricValue (CacheMisses m)))%float /\
  (CacheHits m = 0%nat -> CacheMisses m = 0%nat -> is_nan (HitRate m) = true) /\
  (Z.of_nat (CacheHits m) + Z.of_nat (CacheMisses m) < 2 ^ 53 ->
   Prim2SF (HitRate m) =
     SFdiv prec emax
       (float64_of (Z.of_nat (CacheHits m)))
       (float64_of (Z.of_nat (CacheHits m) + Z.of_nat (CacheMisses m))) /\
   (is_nan (HitRate m) = true <->
    CacheHits m = 0%nat /\ CacheMisses m = 0%nat) /\
   (CacheHits m = 0%nat -> CacheMisses m <> 0%nat -> HitRate m = 0%float) /\
   (CacheMisses m = 0%nat -> CacheHits m <> 0%nat -> HitRate m = 1%float)).
Proof.
  split; [reflexivity|]. split.
  - destruct m as [h k]. cbn. intros -> ->. reflexivity.
  - intros Hb. split; [by apply HitRate_spec|].
    split; [by apply HitRate_nan_iff|]. split.
    + intros Hh Hk. apply HitRate_zero; lia.
    + intros Hk Hh. apply HitRate_one; lia.
Qed.

(** One hit and two misses: a third, to the nearest binary64 number. *)
Example hit_rate_one_in_three :
  HitRate {| CacheHits := 1; CacheMisses := 2 |} = 0x1.5555555555555p-2%float.
Proof. reflexivity. Qed.

Example hit_rate_without_data :
  HitRate {| CacheHits := 0; CacheMisses := 0 |} = nan.
Proof. reflexivity. Qed.

(** * Further properties of the cache methods *)

Section CacheCoverage.
Context {L R : Type} `{!LocalTier L} `{!RemoteTier R} `{!PacketCodec}.
Implicit Types (s : St L R) (key : string).

(** Whatever [Fetch] does (return or panic), it keeps the
    configuration, counts at most once and keeps a complete instance
    complete. *)
Lemma Fetch_step s key :
  Proxy (cache (snd (exec (Fetch key) s))) = Proxy (cache s) /\
  counted_once (CMetrics (cache s)) (CMetrics (cache (snd (exec (Fetch key) s)))) /\
  (complete (cache s) -> complete (cache (snd (exec (Fetch key) s)))).
Proof.
  destruct s as [[i x p m] lo sp lg].
  unfold counted_once, complete, Fetch, Invalidate. run.
  repeat (inner_case; run).
  all: cbn; repeat split; auto; try tauto; intros; congruence.
Qed.

Lemma Fetch_each_step keys s :
  (CacheHits (CMetrics (cache s)) <= CacheHits (CMetrics (cache (Fetch_each keys s))))%nat /\
  (CacheMisses (CMetrics (cache s)) <= CacheMisses (CMetrics (cache (Fetch_each keys s))))%nat /\
  (CacheHits (CMetrics (cache (Fetch_each keys s))) +
   CacheMisses (CMetrics (cache (Fetch_each keys s)))
   <= CacheHits (CMetrics (cache s)) + CacheMisses (CMetrics (cache s))
      + length keys)%nat.
Proof.
  revert s. induction keys as [|key keys IH]; intros s; cbn; [lia|].
  destruct (Fetch_step s key) as (_ & Hm & _).
  specialize (IH (snd (exec (Fetch key) s))).
  unfold Fetch_each in IH.
  destruct Hm as [Hm | [Hm | Hm]]; rewrite Hm in IH; cbn in IH; lia.
Qed.

Lemma Fetch_local_hit_run s key i b :
  MemEnabled (PCache (Proxy (cache s))) = true ->
  internal (cache s) = Some i ->
  bc_Get i key = (Some b, None) ->
  servable b ->
  exec (Fetch key) s =
    (Ret (Some (Some b)),
     add_task (GoSet key (Some b) [true])
       (add_log (LogDebug DCacheHit [AStr key; AInt (len (Some b))])
          (with_cache hits_Inc (set_local "lod-cache" " :hit-i" s)))).
Proof.
  destruct s as [[i0 x p m] lo sp lg]. unfold Fetch, servable. run.
  intros Hm [= ->] Hg [Hl Hv]. apply Z.eqb_neq in Hl. drive. done.
Qed.

Lemma Fetch_remote_hit_run s key x b :
  local_produced_nothing s key ->
  RedisEnabled (PCache (Proxy (cache s))) = true ->
  external (cache s) = Some x ->
  Err (rc_Get x key) = None ->
  Bytes (rc_Get x key) = (Some b, None) ->
  servable b ->
  exec (Fetch key) s =
    (Ret (Some (Some b)),
     add_task (GoSet key (Some b) [true])
       (add_log (LogDebug DCacheHit [AStr key; AInt (len (Some b))])
          (with_cache hits_Inc
             (set_local "lod-cache" " :hit-e"
                ((if 0 <? RedisTTLDuration (PCache (Proxy (cache s)))
                  then add_task (GoExpire key
                                   (RedisTTLDuration (PCache (Proxy (cache s)))))
                  else id)
                   (after_local_miss s key)))))).
Proof.
  destruct s as [[i0 x0 p m] lo sp lg].
  unfold Fetch, servable, local_produced_nothing, after_local_miss. run.
  intros Hl Hr [= ->] He Hb [Hn Hv]. apply Z.eqb_neq in Hn.
  destruct Hl as [Hm | (Hm & i & [= ->] & Hg)]; drive;
    destruct (0 <? RedisTTLDuration (PCache p)); drive; done.
Qed.

(** X1. A call of [Fetch], whether it returns a packet, returns absent
    or panics, never changes the configuration of the instance and
    moves the metrics by at most one increment of one counter. *)
Theorem Fetch_counts_at_most_once s key r s' :
  exec (Fetch key) s = (r, s') ->
  Proxy (cache s') = Proxy (cache s) /\
  counted_once (CMetrics (cache s)) (CMetrics (cache s')).
Proof.
  intros Hf. destruct (Fetch_step s key) as (Hp & Hm & _).
  rewrite Hf in Hp, Hm. auto.
Qed.

(** X2. Over any sequence of [Fetch] calls the hit counter and the miss
    counter never decrease, and together they grow by no more than the
    number of calls. *)
Theorem Fetch_metrics_monotone keys s :
  let s' := Fetch_each keys s in
  (CacheHits (CMetrics (cache s)) <= CacheHits (CMetrics (cache s')))%nat /\
  (CacheMisses (CMetrics (cache s)) <= CacheMisses (CMetrics (cache s')))%nat /\
  (CacheHits (CMetrics (cache s')) + CacheMisses (CMetrics (cache s'))
   <= CacheHits (CMetrics (cache s)) + CacheMisses (CMetrics (cache s))
      + length keys)%nat.
Proof. apply Fetch_each_step. Qed.

(** X3. Servable bytes in the local tier are returned without the
    remote tier being consulted: whatever the remote client is
    (working, failing or nil), the bytes are returned, one hit is
    counted, the request is marked [" :hit-i"], no tier is written and
    the only goroutine started is the local refresh. *)
Theorem Fetch_local_hit s key i b r s' :
  MemEnabled (PCache (Proxy (cache s))) = true ->
  internal (cache s) = Some i ->
  bc_Get i key = (Some b, None) ->
  servable b ->
  exec (Fetch key) s = (r, s') ->
  r = Ret (Some (Some b)) /\
  cache s' = hits_Inc (cache s) /\
  locals s' !! "lod-cache" = Some " :hit-i" /\
  spawned s' = (spawned s ++ [GoSet key (Some b) [true]])%list.
Proof.
  intros Hm Hi Hg Hb Hf.
  rewrite (Fetch_local_hit_run s key i b Hm Hi Hg Hb) in Hf. simplify_eq.
  repeat split. cbn. apply lookup_insert_eq.
Qed.

(** X4. Servable bytes found in the remote tier after the local tier
    produced nothing are returned with one hit counted and the request
    marked [" :hit-e"]; a goroutine extends the expiry of the Redis key
    exactly when the configured TTL is positive, and the local refresh
    is started after it. *)
Theorem Fetch_remote_hit s key x b r s' :
  local_produced_nothing s key ->
  RedisEnabled (PCache (Proxy (cache s))) = true ->
  external (cache s) = Some x ->
  Err (rc_Get x key) = None ->
  Bytes (rc_Get x key) = (Some b, None) ->
  servable b ->
  exec (Fetch key) s = (r, s') ->
  let ttl := RedisTTLDuration (PCache (Proxy (cache s))) in
  r = Ret (Some (Some b)) /\
  cache s' = hits_Inc (cache s) /\
  locals s' !! "lod-cache" = Some " :hit-e" /\
  spawned s' =
    (spawned s ++ (if 0 <? ttl then [GoExpire key ttl] else [])
               ++ [GoSet key (Some b) [true]])%list.
Proof.
  intros Hl Hr Hx He Hb Hs Hf.
  rewrite (Fetch_remote_hit_run s key x b Hl Hr Hx He Hb Hs) in Hf.
  simplify_eq. unfold after_local_miss.
  destruct (MemEnabled (PCache (Proxy (cache s))));
    destruct (0 <? RedisTTLDuration (PCache (Proxy (cache s))));
    cbn; rewrite ?lookup_insert_eq, <- ?app_assoc; done.
Qed.

(** X5. When the local tier reports a missing entry and the remote
    lookup then fails, [Fetch] returns absent with tiers and metrics
    untouched, and the error it logs carries the local tier's
    not-found message whatever the remote error was. *)
Theorem Fetch_logs_local_error_for_remote_failure s key i x e s' r :
  MemEnabled (PCache (Proxy (cache s))) = true ->
  internal (cache s) = Some i ->
  bc_Get i key = (None, Some ErrEntryNotFound) ->
  RedisEnabled (PCache (Proxy (cache s))) = true ->
  external (cache s) = Some x ->
  Err (rc_Get x key) = Some e ->
  e <> RedisNil ->
  exec (Fetch key) s = (r, s') ->
  r = Ret None /\ cache s' = cache s /\ spawned s' = spawned s /\
  last (logs s') =
    Some (LogError ECacheFetch [AStr key; AStr "Entry not found"]).
Proof.
  intros Hm Hi Hg Hr Hx He Hne Hf.
  rewrite (Fetch_remote_error_after_local_miss s key i x e Hm Hi Hg Hr Hx He Hne) in Hf.
  simplify_eq. repeat split; try done.
  cbn. rewrite last_snoc. done.
Qed.

End CacheCoverage.

Section WriteCoverage.
Context {L R : Type} `{!LocalTier L} `{!RemoteTier R} `{!PacketCodec}.
Implicit Types (s : St L R) (key : string).

(** [Set] on a complete instance, for every tile and flag list. *)
Lemma Set_run s key tile flags :
  complete (cache s) ->
  exists s',
    exec (Set_ key tile flags) s = (Ret tt, s') /\
    Proxy (cache s') = Proxy (cache s) /\
    CMetrics (cache s') = CMetrics (cache s) /\
    external (cache s') = external (cache s) /\
    locals s' = locals s /\
    spawned s' = (spawned s ++ Set_goroutines s key tile flags)%list /\
    internal (cache s') =
      (if MemEnabled (PCache (Proxy (cache s)))
       then (fun i => fst (bc_Set i key tile)) <$> internal (cache s)
       else internal (cache s)).
Proof.
  destruct s as [[i x p m] lo sp lg].
  unfold complete, Set_, Set_goroutines, local_only. run.
  intros [Hi Hx].
  destruct flags as [|[|] ?], (RedisEnabled (PCache p)) eqn:Er,
           (MemEnabled (PCache p)) eqn:Em; run.
  all: try (destruct i as [i|]; [|by specialize (Hi eq_refl)]); run.
  all: try (destruct (bc_Set i key tile) as [i' [e|]] eqn:Es); run.
  all: eexists; repeat split; cbn; rewrite ?app_nil_r, ?Es; done.
Qed.

(** The goroutine of [Set] that writes the remote tier. *)
Lemma ExternalSet_run s key tile x :
  external (cache s) = Some x ->
  exists s',
    exec (run_task (GoExternalSet key tile)) s = (Ret tt, s') /\
    Proxy (cache s') = Proxy (cache s) /\
    CMetrics (cache s') = CMetrics (cache s) /\
    internal (cache s') = internal (cache s) /\
    locals s' = locals s /\ spawned s' = spawned s /\
    external (cache s') =
      Some (fst (rc_Set x key (Raw tile)
                   (RedisTTLDuration (PCache (Proxy (cache s)))))).
Proof.
  destruct s as [[i x0 p m] lo sp lg]. cbn [run_task]. run.
  intros [= ->]. run.
  destruct (rc_Set x key (Raw tile) (RedisTTLDuration (PCache p)))
    as [x' [e|]] eqn:Es; run; eexists; repeat split; done.
Qed.

(** After the deletes of [Invalidate key] have been applied to working
    tiers, [Fetch key] finds nothing: absent, one miss. *)
Lemma Fetch_after_deletes s s1 key :
  complete (cache s) ->
  deletes_take_effect s key ->
  Proxy (cache s1) = Proxy (cache s) ->
  (MemEnabled (PCache (Proxy (cache s))) = true ->
   exists i, internal (cache s) = Some i /\
             internal (cache s1) = Some (fst (bc_Delete i key))) ->
  (RedisEnabled (PCache (Proxy (cache s))) = true ->
   exists x, external (cache s) = Some x /\
             external (cache s1) = Some (fst (rc_Del x key))) ->
  exists s2,
    exec (Fetch key) s1 = (Ret None, s2) /\
    CMetrics (cache s2) =
      {| CacheHits := CacheHits (CMetrics (cache s1));
         CacheMisses := S (CacheMisses (CMetrics (cache s1))) |}.
Proof.
  intros Hc [Hlf Hrf] Hp Hi Hx.
  destruct (Fetch_no_bytes s1 key) as (s2 & Hf & Hm & _); [| |eauto].
  - unfold local_produced_nothing. rewrite Hp.
    destruct (MemEnabled (PCache (Proxy (cache s)))) eqn:Em; [right|by left].
    split; [done|]. destruct (Hi eq_refl) as (i & Hi0 & Hi1).
    exists (fst (bc_Delete i key)). split; [done|].
    by destruct (Hlf i eq_refl Hi0).
  - rewrite Hp.
    destruct (RedisEnabled (PCache (Proxy (cache s)))) eqn:Er; [right|by left].
    destruct (Hx eq_refl) as (x & Hx0 & Hx1).
    exists (fst (rc_Del x key)). split; [done|].
    by destruct (Hrf x eq_refl Hx0).
Qed.

Lemma deletes_soft s key :
  deletes_take_effect s key ->
  forall i, internal (cache s) = Some i ->
            MemEnabled (PCache (Proxy (cache s))) = true ->
            snd (bc_Delete i key) = None \/
            snd (bc_Delete i key) = Some ErrEntryNotFound.
Proof. intros [Hl _] i Hi Hm. by destruct (Hl i Hm Hi). Qed.

(** [Invalidate] on working tiers returns nil. *)
Lemma Invalidate_ok s key :
  complete (cache s) -> deletes_take_effect s key ->
  exists s1, exec (Invalidate key) s = (Ret None, s1).
Proof.
  destruct s as [[i x p m] lo sp lg].
  unfold complete, deletes_take_effect, Invalidate. run.
  intros [Hi Hx] [Hl Hr].
  destruct (MemEnabled (PCache p)) eqn:Em.
  - destruct i as [i|]; [|by specialize (Hi eq_refl)].
    destruct (Hl i eq_refl eq_refl) as [Hsoft _]. run.
    destruct (bc_Delete i key) as [i' err]; cbn [snd] in Hsoft.
    assert (Hcont : forall e, err = Some e -> e = ErrEntryNotFound)
      by (intros e ->; destruct Hsoft; congruence).
    destruct err as [e|]; run; [rewrite (Hcont e eq_refl); run|].
    all: destruct (RedisEnabled (PCache p)) eqn:Er; run; [|fin].
    all: destruct x as [x|]; [|by specialize (Hx eq_refl)].
    all: destruct (Hr x eq_refl eq_refl) as [Hnone _]; run.
    all: destruct (rc_Del x key) as [x' err']; cbn [snd] in Hnone;
      subst err'; run; fin.
  - run. destruct (RedisEnabled (PCache p)) eqn:Er; run; [|fin].
    destruct x as [x|]; [|by specialize (Hx eq_refl)].
    destruct (Hr x eq_refl eq_refl) as [Hnone _]; run.
    destruct (rc_Del x key) as [x' err']; cbn [snd] in Hnone;
      subst err'; run; fin.
Qed.

Lemma EncodeSet_run s key tileData headers :
  exec (EncodeSet key tileData headers) s =
  exec (Set_ key (Encode key tileData headers) []) s.
Proof.
  unfold EncodeSet, exec, call. unfold exec.
  by destruct (Set_ key (Encode key tileData headers) [] s) as [[ | | ] ?].
Qed.

Lemma run_GoSet s key tile flags :
  exec (run_task (GoSet key tile flags)) s = exec (Set_ key tile flags) s.
Proof.
  cbn [run_task]. unfold exec, call. unfold exec.
  by destruct (Set_ key tile flags s) as [[ | | ] ?].
Qed.

(** X6. Self-healing: when [Fetch] meets corrupt bytes and the tiers
    carry out the deletes, corrupt bytes do not resurface; the next
    [Fetch] of the key returns absent too. The first call counts a hit,
    the second a miss. *)
Theorem Fetch_self_heals s key b :
  complete (cache s) -> found s key b -> corrupt b ->
  deletes_take_effect s key ->
  exists s1 s2,
    exec (Fetch key) s = (Ret None, s1) /\
    exec (Fetch key) s1 = (Ret None, s2) /\
    CMetrics (cache s2) =
      {| CacheHits := S (CacheHits (CMetrics (cache s)));
         CacheMisses := S (CacheMisses (CMetrics (cache s))) |}.
Proof.
  intros Hc Hf Hb Hd.
  destruct (Fetch_corrupt s key b Hc Hf Hb)
    as (s1 & e & si & Hf1 & Hinv & Hti & Htx & Hm).
  destruct (Invalidate_deletes s key e si Hc Hinv) as [Hdi Hdx].
  pose proof (Fetch_step s key) as (Hp & _ & _). rewrite Hf1 in Hp. cbn in Hp.
  destruct (Fetch_after_deletes s s1 key Hc Hd Hp) as (s2 & Hf2 & Hm2).
  - intros Em. destruct (Hdi Em) as (i & ? & ?). exists i. by rewrite Hti.
  - intros Er. destruct (Hdx Er (deletes_soft s key Hd)) as (x & ? & ?).
    exists x. by rewrite Htx.
  - exists s1, s2. repeat split; [done..|]. by rewrite Hm2, Hm.
Qed.

(** X7. Refresh-on-read: after a hit served from the remote tier, the
    goroutine [Fetch] started writes the same bytes to the local tier
    and nothing to the remote tier, and the next [Fetch] of the key is served locally. *)
Theorem refresh_on_read_warms_local_tier s key i x b :
  MemEnabled (PCache (Proxy (cache s))) = true ->
  internal (cache s) = Some i ->
  bc_Get i key = (None, Some ErrEntryNotFound) ->
  RedisEnabled (PCache (Proxy (cache s))) = true ->
  external (cache s) = Some x ->
  Err (rc_Get x key) = None ->
  Bytes (rc_Get x key) = (Some b, None) ->
  servable b ->
  bc_Get (fst (bc_Set i key (Some b))) key = (Some b, None) ->
  exists s1 s2 s3,
    exec (Fetch key) s = (Ret (Some (Some b)), s1) /\
    last (spawned s1) = Some (GoSet key (Some b) [true]) /\
    exec (run_task (GoSet key (Some b) [true])) s1 = (Ret tt, s2) /\
    internal (cache s2) = Some (fst (bc_Set i key (Some b))) /\
    external (cache s2) = Some x /\
    exec (Fetch key) s2 = (Ret (Some (Some b)), s3) /\
    locals s3 !! "lod-cache" = Some " :hit-i".
Proof.
  intros Hm Hi Hg Hr Hx He Hb Hs Hlaw.
  assert (Hl : local_produced_nothing s key) by (right; eauto).
  pose proof (Fetch_remote_hit_run s key x b Hl Hr Hx He Hb Hs) as Hf1.
  set (s1 := snd (exec (Fetch key) s)).
  assert (Hs1 : cache s1 = hits_Inc (cache s)).
  { unfold s1. rewrite Hf1. unfold after_local_miss. rewrite Hm.
    by destruct (0 <? _). }
  assert (Hc1 : complete (cache s1)).
  { rewrite Hs1. split; cbn; intros _; [by rewrite Hi | by rewrite Hx]. }
  destruct (Set_run s1 key (Some b) [true] Hc1)
    as (s2 & Hset & Hp2 & _ & Hx2 & _ & _ & Hi2).
  rewrite Hs1 in Hp2, Hx2, Hi2. cbn in Hp2, Hx2, Hi2.
  rewrite Hm, Hi in Hi2. cbn in Hi2.
  assert (Hm2 : MemEnabled (PCache (Proxy (cache s2))) = true) by by rewrite Hp2.
  pose proof (Fetch_local_hit_run s2 key _ b Hm2 Hi2 Hlaw Hs) as Hf3.
  eexists s1, s2, _. split; [by unfold s1; rewrite Hf1|].
  split; [unfold s1; rewrite Hf1; cbn; by rewrite last_snoc|].
  split; [by rewrite run_GoSet|].
  split; [done|]. split; [by rewrite Hx2|]. split; [exact Hf3|].
  cbn. apply lookup_insert_eq.
Qed.

(** X8. Populate then read: [EncodeSet] stores the encoded packet in
    the local tier at once and hands the remote write to a goroutine
    (started exactly when the remote tier is enabled); when the packet
    is servable and the local tier keeps what it is given, the next
    [Fetch] returns that packet and counts one hit. *)
Theorem EncodeSet_then_Fetch s key tileData headers i b :
  complete (cache s) ->
  MemEnabled (PCache (Proxy (cache s))) = true ->
  internal (cache s) = Some i ->
  Encode key tileData headers = Some b ->
  servable b ->
  bc_Get (fst (bc_Set i key (Some b))) key = (Some b, None) ->
  exists s1 s2,
    exec (EncodeSet key tileData headers) s = (Ret tt, s1) /\
    spawned s1 =
      (spawned s ++ (if RedisEnabled (PCache (Proxy (cache s)))
                     then [GoExternalSet key (Some b)] else []))%list /\
    external (cache s1) = external (cache s) /\
    exec (Fetch key) s1 = (Ret (Some (Some b)), s2) /\
    CMetrics (cache s2) =
      {| CacheHits := S (CacheHits (CMetrics (cache s)));
         CacheMisses := CacheMisses (CMetrics (cache s)) |}.
Proof.
  intros Hc Hm Hi He Hs Hlaw.
  destruct (Set_run s key (Some b) [] Hc)
    as (s1 & Hset & Hp1 & Hm1 & Hx1 & _ & Hsp & Hi1).
  rewrite Hm, Hi in Hi1. cbn in Hi1.
  assert (Hm' : MemEnabled (PCache (Proxy (cache s1))) = true) by by rewrite Hp1.
  pose proof (Fetch_local_hit_run s1 key _ b Hm' Hi1 Hlaw Hs) as Hf.
  eexists s1, _. rewrite EncodeSet_run, He.
  split; [done|]. split; [|split; [done|split; [exact Hf|]]].
  - rewrite Hsp. unfold Set_goroutines. cbn.
    by destruct (RedisEnabled _).
  - cbn. by rewrite Hm1.
Qed.

(** X9. [Set] on an instance built by the registry never fails towards
    its caller and never touches the metrics or, synchronously, the
    remote tier: the remote write is one goroutine, started exactly
    when the first flag is not true and the remote tier is enabled; the
    local tier is written at once exactly when it is enabled. Flags
    after the first are ignored. *)
Theorem Set_dispatch s key tile flags r s' :
  complete (cache s) ->
  exec (Set_ key tile flags) s = (r, s') ->
  r = Ret tt /\
  CMetrics (cache s') = CMetrics (cache s) /\
  external (cache s') = external (cache s) /\
  spawned s' = (spawned s ++ Set_goroutines s key tile flags)%list /\
  internal (cache s') =
    (if MemEnabled (PCache (Proxy (cache s)))
     then (fun i => fst (bc_Set i key tile)) <$> internal (cache s)
     else internal (cache s)).
Proof.
  intros Hc Hs.
  destruct (Set_run s key tile flags Hc) as (s1 & Hset & _ & ? & ? & _ & ? & ?).
  rewrite Hset in Hs. by simplify_eq.
Qed.

(** X10. Round trip through the remote tier: with the local tier
    disabled, [Set] without the local-only flag starts the remote
    writer; once that goroutine has run and Redis keeps what it was
    given (the packet's raw bytes), [Fetch] returns those bytes. *)
Theorem Set_remote_round_trip s key tile flags x b :
  MemEnabled (PCache (Proxy (cache s))) = false ->
  RedisEnabled (PCache (Proxy (cache s))) = true ->
  external (cache s) = Some x ->
  local_only flags = false ->
  Raw tile = Some b ->
  servable b ->
  (let x' := fst (rc_Set x key (Some b)
                    (RedisTTLDuration (PCache (Proxy (cache s))))) in
   Err (rc_Get x' key) = None /\ Bytes (rc_Get x' key) = (Some b, None)) ->
  exists s1 s2 s3,
    exec (Set_ key tile flags) s = (Ret tt, s1) /\
    spawned s1 = (spawned s ++ [GoExternalSet key tile])%list /\
    exec (run_task (GoExternalSet key tile)) s1 = (Ret tt, s2) /\
    exec (Fetch key) s2 = (Ret (Some (Some b)), s3) /\
    locals s3 !! "lod-cache" = Some " :hit-e".
Proof.
  intros Hm Hr Hx Hfl Hraw Hs [He Hb].
  assert (Hc : complete (cache s)).
  { split; intros ?; [congruence | by rewrite Hx]. }
  destruct (Set_run s key tile flags Hc)
    as (s1 & Hset & Hp1 & _ & Hx1 & _ & Hsp & _).
  rewrite Hx in Hx1.
  destruct (ExternalSet_run s1 key tile x Hx1)
    as (s2 & Hrun & Hp2 & _ & _ & _ & _ & Hx2).
  rewrite Hp1, Hraw in Hx2. rewrite Hp1 in Hp2.
  assert (Hl : local_produced_nothing s2 key) by (left; by rewrite Hp2).
  assert (Hr2 : RedisEnabled (PCache (Proxy (cache s2))) = true) by by rewrite Hp2.
  pose proof (Fetch_remote_hit_run s2 key _ b Hl Hr2 Hx2 He Hb Hs) as Hf.
  eexists s1, s2, _. split; [done|]. split.
  { rewrite Hsp. unfold Set_goroutines. by rewrite Hfl, Hr. }
  split; [done|]. split; [exact Hf|].
  cbn. apply lookup_insert_eq.
Qed.

(** X11. [Invalidate] returns the first error it meets. A local delete
    failing with anything but not-found ends the call: that error is
    returned and the remote tier is not touched, even when enabled.
    When the local delete is skipped or reports success or not-found,
    an error of the remote delete is what is returned, and the local
    delete has been carried out all the same. *)
Theorem Invalidate_returns_first_error s key r s' :
  exec (Invalidate key) s = (r, s') ->
  (forall i e,
     MemEnabled (PCache (Proxy (cache s))) = true ->
     internal (cache s) = Some i ->
     snd (bc_Delete i key) = Some e -> e <> ErrEntryNotFound ->
     r = Ret (Some e) /\ external (cache s') = external (cache s)) /\
  (forall x e,
     (MemEnabled (PCache (Proxy (cache s))) = true ->
      exists i, internal (cache s) = Some i /\
                (snd (bc_Delete i key) = None \/
                 snd (bc_Delete i key) = Some ErrEntryNotFound)) ->
     RedisEnabled (PCache (Proxy (cache s))) = true ->
     external (cache s) = Some x ->
     snd (rc_Del x key) = Some e ->
     r = Ret (Some e) /\
     (MemEnabled (PCache (Proxy (cache s))) = true ->
      exists i, internal (cache s) = Some i /\
                internal (cache s') = Some (fst (bc_Delete i key)))).
Proof.
  destruct s as [[i0 x0 p m] lo sp lg].
  unfold Invalidate. run. intros Hinv. split.
  - intros i e Hm [= ->] He Hne. rewrite Hm in Hinv. run.
    destruct (bc_Delete i key) as [i' err]; cbn in He; subst err. run.
    destruct (decide (e = ErrEntryNotFound)); [done|]. by simplify_eq.
  - intros x e Hl Hr [= ->] He. rewrite Hr in Hinv.
    destruct (rc_Del x key) as [x' err] eqn:Ex; cbn in He; subst err.
    destruct (MemEnabled (PCache p)) eqn:Em; run.
    + destruct (Hl eq_refl) as (i & [= ->] & Hsoft). run.
      destruct (bc_Delete i key) as [i' err] eqn:Ed; cbn [snd] in Hsoft.
      assert (Hcont : forall e0, err = Some e0 -> e0 = ErrEntryNotFound)
        by (intros e0 ->; destruct Hsoft; congruence).
      revert Hinv.
      destruct err as [e0|]; run; [rewrite (Hcont e0 eq_refl); run|].
      all: rewrite Ex; run; intros Hinv; simplify_eq; split; [done|].
      all: intros _; eexists; split; [done|]; cbn; by rewrite Ed.
    + revert Hinv. rewrite Ex. run. intros Hinv. simplify_eq.
      split; [done|]. done.
Qed.

(** X12. Cache-busting: on working tiers [Invalidate] returns nil, and
    the next [Fetch] of the key finds nothing: it returns absent and
    counts one miss. *)
Theorem Invalidate_then_Fetch_misses s key :
  complete (cache s) ->
  deletes_take_effect s key ->
  exists s1 s2,
    exec (Invalidate key) s = (Ret None, s1) /\
    exec (Fetch key) s1 = (Ret None, s2) /\
    CMetrics (cache s2) =
      {| CacheHits := CacheHits (CMetrics (cache s));
         CacheMisses := S (CacheMisses (CMetrics (cache s))) |}.
Proof.
  intros Hc Hd.
  destruct (Invalidate_ok s key Hc Hd) as (s1 & Hinv).
  destruct (Invalidate_returns s key Hc) as (e & s1' & Hinv' & Hp & Hm & _).
  rewrite Hinv in Hinv'. simplify_eq.
  destruct (Invalidate_deletes s key None s1' Hc Hinv) as [Hdi Hdx].
  destruct (Fetch_after_deletes s s1' key Hc Hd Hp Hdi) as (s2 & Hf & Hm2).
  - intros Er. exact (Hdx Er (deletes_soft s key Hd)).
  - exists s1', s2. repeat split; [done..|]. by rewrite Hm2, Hm.
Qed.

(** X13. [Flush] resets the local tier and nothing else. With the
    local tier disabled it does nothing and returns nil. With it
    enabled, whether or not there is a remote tier, it returns what
    the reset reports and the instance holds the reset local tier, the
    rest of the state being as it was. However the call ends, the
    remote tier, the configuration, the counters, the goroutines, the
    request locals and the log are the same afterwards; so a servable
    entry held in the remote tier is served by the next [Fetch],
    marked [" :hit-e"]. *)
Theorem Flush_is_local_only s key :
  (MemEnabled (PCache (Proxy (cache s))) = false ->
   exec Flush s = (Ret None, s)) /\
  (forall i,
     MemEnabled (PCache (Proxy (cache s))) = true ->
     internal (cache s) = Some i ->
     exec Flush s =
       (Ret (snd (bc_Reset i)),
        with_cache (set_internal (fst (bc_Reset i))) s)) /\
  (forall r s',
     exec Flush s = (r, s') ->
     external (cache s') = external (cache s) /\
     Proxy (cache s') = Proxy (cache s) /\
     CMetrics (cache s') = CMetrics (cache s) /\
     spawned s' = spawned s /\ locals s' = locals s /\ logs s' = logs s) /\
  (forall i x b,
     MemEnabled (PCache (Proxy (cache s))) = true ->
     internal (cache s) = Some i ->
     RedisEnabled (PCache (Proxy (cache s))) = true ->
     external (cache s) = Some x ->
     Err (rc_Get x key) = None ->
     Bytes (rc_Get x key) = (Some b, None) ->
     servable b ->
     bc_Get (fst (bc_Reset i)) key = (None, Some ErrEntryNotFound) ->
     exists s1 s2,
       exec Flush s = (Ret (snd (bc_Reset i)), s1) /\
       external (cache s1) = Some x /\
       exec (Fetch key) s1 = (Ret (Some (Some b)), s2) /\
       locals s2 !! "lod-cache" = Some " :hit-e").
Proof.
  assert (Hfl : forall i,
            MemEnabled (PCache (Proxy (cache s))) = true ->
            internal (cache s) = Some i ->
            exec Flush s =
              (Ret (snd (bc_Reset i)),
               with_cache (set_internal (fst (bc_Reset i))) s)).
  { intros i Hm Hi. destruct s as [[i0 x0 p m] lo sp lg]. unfold Flush. run.
    cbn in Hm, Hi. simplify_eq. drive.
    by destruct (bc_Reset i) as [i' err]. }
  split; [|split; [exact Hfl|split]].
  - destruct s as [[i x p m] lo sp lg]. unfold Flush. run.
    intros Hm. drive. done.
  - intros r s'.
    destruct (MemEnabled (PCache (Proxy (cache s)))) eqn:Hm.
    + destruct (internal (cache s)) as [i|] eqn:Hi.
      * rewrite (Hfl i eq_refl eq_refl). intros [= <- <-]. by destruct s.
      * destruct s as [[i x p m] lo sp lg]. cbn in Hm, Hi. subst i.
        unfold Flush. run. rewrite Hm. run. by intros [= <- <-].
    + destruct s as [[i x p m] lo sp lg]. cbn in Hm.
      unfold Flush. run. rewrite Hm. run. by intros [= <- <-].
  - intros i x b Hm Hi Hr Hx He Hb Hs Hlaw.
    set (s1 := with_cache (set_internal (fst (bc_Reset i))) s).
    assert (Hl : local_produced_nothing s1 key).
    { right. split; [done|]. eexists. split; [done|]. exact Hlaw. }
    pose proof (Fetch_remote_hit_run s1 key x b Hl Hr Hx He Hb Hs) as Hf.
    eexists s1, _. split; [by apply Hfl|]. split; [done|]. split; [exact Hf|].
    cbn. apply lookup_insert_eq.
Qed.

End WriteCoverage.

(** * Further properties of the registry *)

Section RegistryCoverage.
Context {L R : Type} `{!LocalTier L} `{!RemoteTier R} `{!PacketCodec} `{!Env}.
Implicit Types (g : Proc L R) (name : string).

(** Every way [Get] can end from a state with the mutex free: the
    mutex is free again, the configuration is the same, collectors are
    only added, and either the map and the instances are unchanged or
    exactly one complete instance was added under [name]. *)
Lemma Get_cases g name :
  lock_free g ->
  let r := fst (exec (Get name) g) in
  let g' := snd (exec (Get name) g) in
  Proxies g' = Proxies g /\ lock_free g' /\
  (exists more, registered g' = (registered g ++ more)%list) /\
  ((Caches g' = Caches g /\ heap g' = heap g /\
    (forall p, r = Ret (Some p) -> Caches g !! name = Some p)) \/
   (Caches g !! name = None /\
    r = Ret (Some (length (heap g))) /\
    Caches g' = <[name := length (heap g)]> (Caches g) /\
    exists c, heap g' = (heap g ++ [c])%list /\ complete c /\
              Name (Proxy c) = name)).
Proof.
  intros Hl. unfold lock_free in *.
  destruct (Caches g !! name) as [p|] eqn:Hc.
  { rewrite (Get_existing g name p Hc). cbn.
    split; [done|]. split; [done|].
    split; [exists []; by rewrite app_nil_r|].
    left. repeat split; auto. by intros ? [= ->]. }
  destruct (first_match name (Proxies g)) as [proxy|] eqn:Hf.
  2: { rewrite (Get_unknown_name g name Hl Hc Hf). cbn.
       split; [done|]. split; [done|].
       split; [exists []; by rewrite app_nil_r|].
       left. repeat split; auto. intros p [=]. }
  pose proof (first_match_name _ _ _ Hf) as Hn.
  prun. rewrite Hc. run.
  destruct g as [px cs hp lk rg lg]; cbn in *.
  assert (Hlk : lk = None \/ lk = Some false)
    by (destruct lk as [[|]|]; auto; done).
  destruct Hlk as [-> | ->]; prun; rewrite (loop_found _ _ _ _ Hf); prun.
  all: repeat (inner_case; prun).
  all: cbn; split; [done|]; split; [done|].
  all: split;
    [first [ by (exists []; rewrite app_nil_r)
           | by (rewrite <- ?app_assoc; eexists) ]|].
  all: try by (left; repeat split; auto; intros ? [=]).
  all: right; rewrite lookup_insert_eq; repeat split; auto.
  all: eexists; split; [done|]; split; [|done].
  all: split; cbn; intros; try congruence; eauto using initInternal_ok.
Qed.



(** X15. A call of [Get], whether it returns an instance, returns nil
    or panics in the metrics registry, leaves the mutex released, the
    configuration unchanged, every entry of the map under another name
    as it was, every instance allocated before at its address, and
    every collector registered before still registered. *)
Theorem Get_leaves_the_rest_alone g name r g' :
  lock_free g ->
  exec (Get name) g = (r, g') ->
  lock_free g' /\
  Proxies g' = Proxies g /\
  (forall n, n <> name -> Caches g' !! n = Caches g !! n) /\
  (forall p c, heap g !! p = Some c -> heap g' !! p = Some c) /\
  (forall d, d ∈ registered g -> d ∈ registered g').
Proof.
  intros Hl Hg. pose proof (Get_cases g name Hl) as Hcases.
  rewrite Hg in Hcases. cbn in Hcases.
  destruct Hcases as (Hp & Hl' & [more Hr] & Hrest).
  split; [done|]. split; [done|].
  destruct Hrest as [(Hc & Hh & _) | (_ & _ & Hc & c0 & Hh & _)].
  - rewrite Hc, Hh, Hr. repeat split; auto. set_solver.
  - rewrite Hc, Hh, Hr. repeat split.
    + intros n Hn. by rewrite lookup_insert_ne.
    + intros p c Hpc. by apply lookup_app_l_Some.
    + set_solver.
Qed.

(** X16. The registry stays well formed: if every name in the map
    points to an allocated instance of that name with all its enabled
    tiers, and the mutex is free, the same holds after any call of
    [Get], however it ends. *)
Theorem Get_keeps_registry_ok g name r g' :
  registry_ok g ->
  exec (Get name) g = (r, g') ->
  registry_ok g'.
Proof.
  intros [Hl Hok] Hg. pose proof (Get_cases g name Hl) as Hcases.
  rewrite Hg in Hcases. cbn in Hcases.
  destruct Hcases as (_ & Hl' & _ & Hrest).
  split; [done|].
  destruct Hrest as [(Hc & Hh & _) | (_ & _ & Hc & c0 & Hh & Hcc & Hcn)].
  - rewrite Hc, Hh. exact Hok.
  - rewrite Hc, Hh. intros n p Hnp.
    destruct (decide (n = name)) as [->|Hne].
    + rewrite lookup_insert_eq in Hnp. injection Hnp as <-.
      exists c0. split; [by apply list_lookup_middle|done].
    + rewrite lookup_insert_ne in Hnp by done.
      destruct (Hok n p Hnp) as (c & Hpc & ? & ?).
      exists c. split; [by apply lookup_app_l_Some|done].
Qed.

Lemma Get_unknown_repeated n g name :
  lock_free g ->
  Caches g !! name = None ->
  first_match name (Proxies g) = None ->
  let g' := Get_repeated n name g in
  lock_free g' /\ Proxies g' = Proxies g /\
  Caches g' = Caches g /\ heap g' = heap g /\
  registered g' = registered g /\
  plogs g' = (plogs g ++ replicate n (LogError ECacheName [AStr name]))%list.
Proof.
  intros Hl Hc Hf. induction n as [|n IH].
  - cbn. repeat split; auto. by rewrite app_nil_r.
  - cbn zeta in *.
    change (Get_repeated (S n) name g)
      with (snd (exec (Get name) (Get_repeated n name g))).
    set (gn := Get_repeated n name g) in *.
    destruct IH as (Hl' & Hp & Hc' & Hh & Hr & Hlg).
    rewrite Get_unknown_name; [|done|by rewrite Hc'|by rewrite Hp].
    cbn. rewrite Hlg. repeat split; auto; [done|].
    rewrite <- app_assoc. f_equal.
    change (LogError ECacheName [AStr name] :: replicate n _)
      with (replicate (S n) (LogError ECacheName [AStr name])).
    by rewrite replicate_S_end.
Qed.

(** X17. A name that no configuration entry matches is never
    remembered: each of [n] successive calls of [Get] scans the
    configuration again and logs the error again, and the map, the
    instances and the collectors stay as they were. *)
Theorem Get_unknown_name_is_not_remembered n g name :
  lock_free g ->
  Caches g !! name = None ->
  first_match name (Proxies g) = None ->
  let g' := Get_repeated n name g in
  Caches g' = Caches g /\ heap g' = heap g /\
  registered g' = registered g /\
  plogs g' = (plogs g ++ replicate n (LogError ECacheName [AStr name]))%list /\
  fst (exec (Get name) g') = Ret None.
Proof.
  intros Hl Hc Hf.
  destruct (Get_unknown_repeated n g name Hl Hc Hf)
    as (Hl' & Hp & Hc' & Hh & Hr & Hlg).
  cbn zeta. repeat split; auto.
  rewrite Get_unknown_name; [done|done|by rewrite Hc'|by rewrite Hp].
Qed.

(** X18. Called one after the other, [Get] constructs an instance
    once: after a first call that built and returned an instance, any
    number of further calls for the name leave the process state as it
    is (no second construction, no second registration) and the next
    call returns that same instance. *)
Theorem Get_builds_once_in_sequence g name p g1 n :
  Caches g !! name = None ->
  exec (Get name) g = (Ret (Some p), g1) ->
  Get_repeated n name g1 = g1 /\
  exec (Get name) g1 = (Ret (Some p), g1).
Proof.
  intros Hc Hg.
  destruct (Get_builds_complete g name p g1 Hc Hg) as (c & _ & _ & Hp & _).
  pose proof (Get_existing g1 name p Hp) as Hagain.
  split; [|done].
  induction n as [|n IH]; [done|].
  change (Get_repeated (S n) name g1)
    with (snd (exec (Get name) (Get_repeated n name g1))).
  by rewrite IH, Hagain.
Qed.

Lemma sched_step_after_build g name p i ts :
  Caches g !! name = Some p ->
  Forall (fun t => t = AtCheck \/ t = Finished (Some p)) ts ->
  exists ts',
    sched_step_with critical name i (ts, g) = (ts', g) /\
    Forall (fun t => t = AtCheck \/ t = Finished (Some p)) ts'.
Proof.
  intros Hc Hts. unfold sched_step_with. cbn [fst snd].
  destruct (ts !! i) as [t|] eqn:Hi; [|by exists ts].
  assert (Ht : t = AtCheck \/ t = Finished (Some p)).
  { rewrite Forall_forall in Hts. apply Hts. by eapply list_elem_of_lookup_2. }
  destruct Ht as [-> | ->]; cbn; rewrite ?Hc.
  - eexists. split; [done|]. apply Forall_insert; auto.
  - eexists. split; [done|]. apply Forall_insert; auto.
Qed.

(** X19. Once an instance is stored under a name, concurrent callers of
    [Get] for it need no lock: under every interleaving of any number
    of goroutines that are entering [Get] or have returned from it,
    each goroutine that moves returns the stored instance, none takes
    the mutex and the process state is not changed. *)
Theorem concurrent_Get_after_build g name p sched ts :
  Caches g !! name = Some p ->
  Forall (fun t => t = AtCheck \/ t = Finished (Some p)) ts ->
  snd (run_schedule name sched (ts, g)) = g /\
  Forall (fun t => t = AtCheck \/ t = Finished (Some p))
         (fst (run_schedule name sched (ts, g))).
Proof.
  intros Hc. unfold run_schedule, run_schedule_with.
  revert ts. induction sched as [|i sched IH]; intros ts Hts; [done|].
  cbn [fold_left].
  destruct (sched_step_after_build g name p i ts Hc Hts) as (ts' & -> & Hts').
  by apply IH.
Qed.

End RegistryCoverage.

(** * Properties of the endpoint handler *)

Section HandlerCoverage.
Context {L R : Type} `{!LocalTier L} `{!RemoteTier R} `{!PacketCodec} `{!Env}.
Implicit Types (h : HSt L R) (p : ProxyConfig) (req : Request).

Lemma in_proc_Get_existing {X} h name addr :
  Caches (proc h) !! name = Some addr ->
  in_proc (X:=X) (Get name) h = (Next (Some addr), h).
Proof.
  intros Hc. unfold in_proc. rewrite (Get_existing _ _ _ Hc).
  by destruct h.
Qed.

Lemma on_cache_run {X A} h addr c (body : M (St L R) A A) :
  heap (proc h) !! addr = Some c ->
  on_cache (X:=X) (Some addr) body h =
    (match fst (exec body (fetch_state h c)) with
     | Ret a => Next a
     | Panicked why => Panic why
     end,
     after_method h addr (snd (exec body (fetch_state h c)))).
Proof.
  intros Hh. unfold on_cache, bind, deref, pure, gets. rewrite Hh.
  unfold fetch_state, after_method.
  by destruct (exec body _) as [[a|why] s'].
Qed.

Lemma go_append_empty (a b : slice) :
  len a = 0 -> bytes_of (go_append a b) = bytes_of b.
Proof.
  destruct a as [[|x l]|]; cbn; [done|lia|].
  intros _. destruct (len b =? 0) eqn:Hb; [|done].
  apply Z.eqb_eq in Hb. destruct b as [[|y l]|]; cbn in *; [done|lia|done].
Qed.

(** X20. A request whose tile URL cannot be built is answered with
    status 400 and the cache is never consulted: no instance is looked
    up or constructed, nothing is registered and no goroutine is
    started. The reason phrase ["Bad Request"] becomes the response
    body when the response had none; a body already there is kept.
    The error is logged once and the handler returns nil. *)
Theorem handler_bad_request p req h url e :
  req_tileUrl req = (url, Some e) ->
  exists h',
    exec (handler p req) h = (Ret None, h') /\
    resp_status (ctx h') = 400 /\
    ctx_locals (ctx h') !! "lod-cache" = Some " :err " /\
    resp_body (ctx h') =
      (if len (resp_body (ctx h)) =? 0
       then Some (list_byte_of_string "Bad Request")
       else resp_body (ctx h)) /\
    resp_headers (ctx h') = resp_headers (ctx h) /\
    plogs (proc h') =
      (plogs (proc h) ++ [LogError EBadRequest [AStr (error_Error e)]])%list /\
    Caches (proc h') = Caches (proc h) /\
    heap (proc h') = heap (proc h) /\
    registered (proc h') = registered (proc h) /\
    cacheLock (proc h') = cacheLock (proc h) /\
    pending h' = pending h.
Proof.
  intros Hu. unfold handler. rewrite Hu.
  cbv beta iota zeta delta [exec bind modify Error return_ add_log HSt_log
                           Proc_log with_ctx Locals SendStatus].
  eexists. split; [reflexivity|]. cbn.
  repeat split. apply lookup_insert_eq.
Qed.


(** X22. A miss goes upstream. An upstream error is returned to the
    caller with the response body untouched and nothing scheduled for
    caching. A successful upstream answer becomes the response body,
    and a populate of the cache ([EncodeSet] of that body with the
    retained headers, on the proxy's instance) is scheduled exactly
    when the body is not empty. *)
Theorem handler_miss p req h url addr c s' r h' :
  req_tileUrl req = (url, None) ->
  Caches (proc h) !! Name p = Some addr ->
  heap (proc h) !! addr = Some c ->
  exec (Fetch (req_cacheKey req)) (fetch_state h c) = (Ret None, s') ->
  exec (handler p req) h = (r, h') ->
  ctx_locals (ctx h') !! "lod-cache" = Some " :miss" /\
  Caches (proc h') = Caches (proc h) /\
  heap (proc h') = <[addr := cache s']> (heap (proc h)) /\
  match req_upstream req with
  | (Some e, _) =>
      r = Ret (Some e) /\
      resp_body (ctx h') = resp_body (ctx h) /\
      pending h' = (pending h ++ map (OfCache addr) (spawned s'))%list
  | (None, body) =>
      r = Ret None /\
      resp_body (ctx h') = body /\
      pending h' =
        (pending h ++ map (OfCache addr) (spawned s') ++
         (if 0 <? len body
          then [GoEncodeSet (Some addr) (req_cacheKey req) body
                  (req_keptHeaders req)]
          else []))%list
  end.
Proof.
  intros Hu Hc Hh Hf. unfold handler. rewrite Hu.
  cbv beta iota zeta delta [exec bind pure].
  rewrite (in_proc_Get_existing h _ addr Hc).
  rewrite (on_cache_run h addr c _ Hh), Hf. cbn [fst snd].
  destruct (req_upstream req) as [[e|] body];
    cbv beta iota zeta delta [modify return_ with_ctx Locals SetBody spawn].
  - intros [= <- <-]. cbn. repeat split. apply lookup_insert_eq.
  - destruct (0 <? len body) eqn:Hlen.
    + rewrite in_proc_Get_existing with (addr := addr) by exact Hc.
      intros [= <- <-]. cbn. rewrite <- app_assoc.
      repeat split. apply lookup_insert_eq.
    + intros [= <- <-]. cbn. rewrite app_nil_r.
      repeat split. apply lookup_insert_eq.
Qed.

Lemma keeps_bind {S X A B} (I : S -> Prop) (m : M S X A) (k : A -> M S X B) :
  keeps I m -> (forall a, keeps I (k a)) -> keeps I (bind m k).
Proof.
  intros Hm Hk s Hs. unfold bind. specialize (Hm s Hs).
  destruct (m s) as [[a|r|why] s1]; cbn in *; auto. by apply Hk.
Qed.

Lemma keeps_pure {S X A} (I : S -> Prop) (a : A) : keeps (X:=X) I (pure a).
Proof. by intros s Hs. Qed.

Lemma keeps_return {S X A} (I : S -> Prop) (r : X) :
  keeps (A:=A) I (return_ r).
Proof. by intros s Hs. Qed.

Lemma keeps_modify {S X} (I : S -> Prop) (f : S -> S) :
  (forall s, I s -> I (f s)) -> keeps (X:=X) I (modify f).
Proof. intros Hf s Hs. by apply Hf. Qed.

Lemma keeps_in_proc_Get {X} name :
  keeps registry_ok_h (in_proc (X:=X) (Get name)).
Proof.
  intros h Hok. unfold in_proc, registry_ok_h in *.
  destruct (exec (Get name) (proc h)) as [r g'] eqn:Hg.
  pose proof (Get_cases (proc h) name (proj1 Hok)) as Hcases.
  rewrite Hg in Hcases. cbn in Hcases.
  destruct Hcases as (_ & Hl' & _ & Hrest).
  assert (Hok' : registry_ok g').
  { split; [done|]. destruct Hok as [_ Hok].
    destruct Hrest as [(Hc & Hh & _) | (_ & _ & Hc & c0 & Hh & Hcc & Hcn)];
      rewrite Hc, Hh; [exact Hok|].
    intros n p Hnp. destruct (decide (n = name)) as [->|Hne].
    - rewrite lookup_insert_eq in Hnp. injection Hnp as <-.
      exists c0. split; [by apply list_lookup_middle|done].
    - rewrite lookup_insert_ne in Hnp by done.
      destruct (Hok n p Hnp) as (c & Hpc & ? & ?).
      exists c. split; [by apply lookup_app_l_Some|done]. }
  by destruct r.
Qed.

Lemma keeps_on_cache_Fetch {X} receiver key :
  keeps registry_ok_h (on_cache (X:=X) receiver (Fetch key)).
Proof.
  intros h Hok. unfold registry_ok_h in *.
  destruct receiver as [addr|]; [|exact Hok].
  destruct (heap (proc h) !! addr) as [c|] eqn:Hh.
  2: { unfold on_cache, bind, deref, pure, gets, panic. by rewrite Hh. }
  rewrite (on_cache_run h addr c _ Hh). cbn [snd].
  destruct (Fetch_step (fetch_state h c) key) as (Hp & _ & Hcomp).
  set (s' := snd (exec (Fetch key) (fetch_state h c))) in *.
  destruct Hok as [Hl Hok]. split; [exact Hl|].
  cbn. intros n p0 Hnp. destruct (Hok n p0 Hnp) as (c0 & Hc0 & Hcc & Hn).
  destruct (decide (p0 = addr)) as [->|Hne].
  - exists (cache s'). rewrite Hh in Hc0. injection Hc0 as <-.
    split; [apply list_lookup_insert_eq; by eapply lookup_lt_Some|].
    split; [by apply Hcomp|]. by rewrite Hp.
  - exists c0. by rewrite list_lookup_insert_ne.
Qed.

(** X23. Serving a request keeps the registry well formed: if every
    name in the map points to an allocated instance of that name with
    all its enabled tiers and the mutex is free before the handler
    runs, the same holds afterwards, whether the handler answered,
    returned an error or panicked. *)
Theorem handler_keeps_registry_ok p req h r h' :
  registry_ok (proc h) ->
  exec (handler p req) h = (r, h') ->
  registry_ok (proc h').
Proof.
  intros Hok He.
  assert (Hk : keeps registry_ok_h (handler p req)).
  { unfold handler. destruct (req_tileUrl req) as [url err].
    apply keeps_bind.
    { destruct err; [|apply keeps_pure].
      repeat (apply keeps_bind; [|intros ?]);
        first [apply keeps_return | by apply keeps_modify]. }
    intros _. apply keeps_bind; [apply keeps_in_proc_Get|]. intros c.
    apply keeps_bind; [apply keeps_on_cache_Fetch|]. intros cachedTile.
    apply keeps_bind; [|intros ?; apply keeps_return].
    destruct cachedTile as [tile|].
    - apply keeps_bind.
      { apply keeps_bind; [by apply keeps_modify|]. intros _. apply keeps_pure. }
      intros werr. apply keeps_bind; [|intros ?].
      + destruct werr; [|apply keeps_pure].
        repeat (apply keeps_bind; [|intros ?]);
          first [apply keeps_return | by apply keeps_modify].
      + repeat (apply keeps_bind; [|intros ?]); by apply keeps_modify.
    - apply keeps_bind; [by apply keeps_modify|]. intros _.
      destruct (req_upstream req) as [uerr body].
      apply keeps_bind.
      { destruct uerr; [apply keeps_return | by apply keeps_modify]. }
      intros _. destruct (0 <? len body); [|apply keeps_pure].
      apply keeps_bind; [apply keeps_in_proc_Get|]. intros c'.
      by apply keeps_modify. }
  specialize (Hk h Hok). unfold exec in He.
  destruct (handler p req h) as [[a|a|why] h1]; by simplify_eq.
Qed.

(** X24. Miss, populate, hit: a request that misses is answered with
    the upstream body and schedules the populate; once that goroutine
    has run, and given that the encoded packet is servable and the
    local tier keeps what it is given, the next request for the same
    tile, served on its own response context, is answered from the
    cache: the packet's payload is appended to that context's body (it
    is the whole body when the context is fresh) and the status is
    left alone. *)
Theorem handler_miss_then_hit p req h url addr c i body b c0 :
  let key := req_cacheKey req in
  let populate := GoEncodeSet (Some addr) key body (req_keptHeaders req) in
  req_tileUrl req = (url, None) ->
  req_upstream req = (None, body) ->
  0 < len body ->
  Caches (proc h) !! Name p = Some addr ->
  heap (proc h) !! addr = Some c ->
  complete c ->
  MemEnabled (PCache (Proxy c)) = true ->
  internal c = Some i ->
  bc_Get i key = (None, Some ErrEntryNotFound) ->
  (RedisEnabled (PCache (Proxy c)) = false \/
   exists x, external c = Some x /\ Err (rc_Get x key) = Some RedisNil) ->
  Encode key body (req_keptHeaders req) = Some b ->
  servable b ->
  bc_Get (fst (bc_Set i key (Some b))) key = (Some b, None) ->
  exists h1 h2 h3,
    exec (handler p req) h = (Ret None, h1) /\
    resp_body (ctx h1) = body /\
    last (pending h1) = Some populate /\
    exec (run_ptask populate) h1 = (Ret tt, h2) /\
    exec (handler p req) (next_request c0 h2) = (Ret None, h3) /\
    resp_body (ctx h3) = go_append (resp_body c0) (TileData (Some b)) /\
    (len (resp_body c0) = 0 ->
     bytes_of (resp_body (ctx h3)) = bytes_of (TileData (Some b))) /\
    resp_status (ctx h3) = resp_status c0 /\
    ctx_locals (ctx h3) !! "lod-cache" = Some " :hit ".
Proof.
  intros key populate Hu Hup Hlen Hc Hh Hcomp Hm Hi Hg Hr Henc Hs Hlaw.
  apply Z.ltb_lt in Hlen.
  (* the first request misses *)
  destruct (Fetch_no_bytes (fetch_state h c) key) as (sa & Hfa & _ & Hia & _ & _).
  { right. split; [done|]. by exists i. }
  { exact Hr. }
  pose proof (Fetch_step (fetch_state h c) key) as (Hpa & _ & Hca).
  rewrite Hfa in Hpa, Hca. cbn in Hpa, Hia, Hca. specialize (Hca Hcomp).
  rewrite Hi in Hia.
  assert (Hlt : (addr < length (heap (proc h)))%nat) by by eapply lookup_lt_Some.
  set (h1 := spawn populate
               (with_ctx (SetBody body)
                  (with_ctx (Locals "lod-cache" " :miss")
                     (after_method h addr sa)))).
  assert (Hh1 : heap (proc h1) !! addr = Some (cache sa))
    by (cbn; by apply list_lookup_insert_eq).
  (* the populate goroutine *)
  destruct (Set_run (fetch_state h1 (cache sa)) key (Some b) [] Hca)
    as (s1 & Hset & Hp1 & _ & _ & _ & _ & Hi1).
  cbn in Hp1, Hi1. rewrite Hpa, Hm, Hia in Hi1. cbn in Hi1.
  set (h2 := after_method h1 addr s1).
  set (h2' := next_request c0 h2).
  assert (Hc2 : Caches (proc h2') !! Name p = Some addr) by exact Hc.
  assert (Hh2 : heap (proc h2') !! addr = Some (cache s1)).
  { cbn. apply list_lookup_insert_eq. by rewrite !length_insert. }
  (* the next request *)
  assert (Hm2 : MemEnabled (PCache (Proxy (cache (fetch_state h2' (cache s1))))) = true)
    by (cbn; by rewrite Hp1, Hpa).
  pose proof (Fetch_local_hit_run (fetch_state h2' (cache s1)) key _ b
                Hm2 Hi1 Hlaw Hs) as Hf2.
  set (s3 := add_task _ _) in Hf2.
  exists h1, h2,
    (with_ctx (SetHeaders (Headers (Some b)))
       (with_ctx (Locals "lod-cache" " :hit ")
          (with_ctx (AppendBody (TileData (Some b)))
             (after_method h2' addr s3)))).
  split.
  { unfold handler. rewrite Hu, Hup.
    cbv beta iota zeta delta [exec bind pure].
    rewrite (in_proc_Get_existing h _ addr Hc).
    rewrite (on_cache_run h addr c _ Hh). fold key. rewrite Hfa. cbn [fst snd].
    cbv beta iota zeta delta [modify return_].
    rewrite Hlen.
    rewrite in_proc_Get_existing with (addr := addr) by exact Hc.
    reflexivity. }
  split; [done|]. split; [cbn; by rewrite last_snoc|].
  split.
  { unfold populate. cbn [run_ptask]. unfold exec at 1.
    rewrite (on_cache_run h1 addr (cache sa) _ Hh1).
    rewrite EncodeSet_run. fold key. rewrite Henc, Hset. reflexivity. }
  split.
  { unfold handler. rewrite Hu.
    cbv beta iota zeta delta [exec bind pure].
    rewrite (in_proc_Get_existing h2' _ addr Hc2).
    rewrite (on_cache_run h2' addr (cache s1) _ Hh2). fold key.
    rewrite Hf2. cbn [fst snd].
    cbv beta iota zeta delta [Write bind pure modify return_].
    reflexivity. }
  split; [done|]. split; [intros Hl0; by apply go_append_empty|].
  split; [done|]. cbn. apply lookup_insert_eq.
Qed.

End HandlerCoverage.

(** ** Instances of the further properties *)

Lemma servable_good_tile : servable good_tile.
Proof. split; [discriminate | reflexivity]. Qed.

Lemma Fetch_counts_at_most_once_witness :
  Proxy (cache (snd (exec (Fetch sample_key) s_corrupt))) = Proxy (cache s_corrupt) /\
  counted_once (CMetrics (cache s_corrupt))
               (CMetrics (cache (snd (exec (Fetch sample_key) s_corrupt)))).
Proof.
  apply (Fetch_counts_at_most_once s_corrupt sample_key
           (fst (exec (Fetch sample_key) s_corrupt))).
  reflexivity.
Defined.

Lemma Fetch_local_hit_witness :
  fst (exec (Fetch sample_key) s_both) = Ret (Some (Some good_tile)) /\
  cache (snd (exec (Fetch sample_key) s_both)) = hits_Inc (cache s_both) /\
  locals (snd (exec (Fetch sample_key) s_both)) !! "lod-cache" = Some " :hit-i" /\
  spawned (snd (exec (Fetch sample_key) s_both)) =
    (spawned s_both ++ [GoSet sample_key (Some good_tile) [true]])%list.
Proof.
  apply (Fetch_local_hit s_both sample_key
           (mem_of [(sample_key, good_tile)] None) good_tile).
  - reflexivity.
  - reflexivity.
  - reflexivity.
  - exact servable_good_tile.
  - reflexivity.
Defined.

Lemma Fetch_remote_hit_witness :
  fst (exec (Fetch sample_key) s_remote_hit) = Ret (Some (Some good_tile)) /\
  cache (snd (exec (Fetch sample_key) s_remote_hit)) = hits_Inc (cache s_remote_hit) /\
  locals (snd (exec (Fetch sample_key) s_remote_hit)) !! "lod-cache" = Some " :hit-e" /\
  spawned (snd (exec (Fetch sample_key) s_remote_hit)) =
    [GoExpire sample_key 3600; GoSet sample_key (Some good_tile) [true]].
Proof.
  apply (Fetch_remote_hit s_remote_hit sample_key
           (redis_of [(sample_key, good_tile)] None) good_tile).
  - right. split; [reflexivity|]. eexists. split; reflexivity.
  - reflexivity.
  - reflexivity.
  - reflexivity.
  - reflexivity.
  - exact servable_good_tile.
  - reflexivity.
Defined.

Lemma Fetch_logs_local_error_for_remote_failure_witness :
  fst (exec (Fetch sample_key) s_local_miss_remote_down) = Ret None /\
  cache (snd (exec (Fetch sample_key) s_local_miss_remote_down)) =
    cache s_local_miss_remote_down /\
  spawned (snd (exec (Fetch sample_key) s_local_miss_remote_down)) =
    spawned s_local_miss_remote_down /\
  last (logs (snd (exec (Fetch sample_key) s_local_miss_remote_down))) =
    Some (LogError ECacheFetch [AStr sample_key; AStr "Entry not found"]).
Proof.
  apply (Fetch_logs_local_error_for_remote_failure s_local_miss_remote_down
           sample_key (mem_of [] None) (redis_of [] (Some timeout_err))
           timeout_err);
    [reflexivity | reflexivity | reflexivity | reflexivity | reflexivity
    | reflexivity | discriminate | reflexivity].
Defined.

Lemma deletes_take_effect_sample (i : MemStore) (x : RedisStub) p :
  mem_fault i = None -> redis_fault x = None ->
  deletes_take_effect (st_of p (Some i) (Some x)) sample_key.
Proof.
  intros Hi Hx. destruct i as [ents fi], x as [ks fx]. cbn in Hi, Hx. subst.
  split.
  - intros i _ [= <-]. cbn.
    destruct (ents !! sample_key) eqn:He; cbn.
    + rewrite lookup_delete_eq. auto.
    + rewrite He. auto.
  - intros x _ [= <-]. cbn. rewrite lookup_delete_eq. auto.
Qed.

Lemma Fetch_self_heals_witness :
  exists s1 s2,
    exec (Fetch sample_key) s_corrupt = (Ret None, s1) /\
    exec (Fetch sample_key) s1 = (Ret None, s2) /\
    CMetrics (cache s2) = {| CacheHits := 1; CacheMisses := 1 |}.
Proof.
  apply (Fetch_self_heals s_corrupt sample_key corrupt_tile).
  - apply complete_sample.
  - eapply found_local; reflexivity.
  - right. reflexivity.
  - apply deletes_take_effect_sample; reflexivity.
Defined.

Lemma refresh_on_read_warms_local_tier_witness :
  exists s1 s2 s3,
    exec (Fetch sample_key) s_remote_hit = (Ret (Some (Some good_tile)), s1) /\
    last (spawned s1) = Some (GoSet sample_key (Some good_tile) [true]) /\
    exec (run_task (GoSet sample_key (Some good_tile) [true])) s1 = (Ret tt, s2) /\
    internal (cache s2) =
      Some (fst (bc_Set (mem_of [] None) sample_key (Some good_tile))) /\
    external (cache s2) = Some (redis_of [(sample_key, good_tile)] None) /\
    exec (Fetch sample_key) s2 = (Ret (Some (Some good_tile)), s3) /\
    locals s3 !! "lod-cache" = Some " :hit-i".
Proof.
  apply (refresh_on_read_warms_local_tier s_remote_hit sample_key
           (mem_of [] None) (redis_of [(sample_key, good_tile)] None) good_tile);
    try reflexivity.
  exact servable_good_tile.
Defined.

Lemma EncodeSet_then_Fetch_witness :
  exists s1 s2,
    exec (EncodeSet sample_key (Some [x01; x02]) []) s_empty = (Ret tt, s1) /\
    spawned s1 = [GoExternalSet sample_key (Some good_tile)] /\
    external (cache s1) = external (cache s_empty) /\
    exec (Fetch sample_key) s1 = (Ret (Some (Some good_tile)), s2) /\
    CMetrics (cache s2) = {| CacheHits := 1; CacheMisses := 0 |}.
Proof.
  apply (EncodeSet_then_Fetch s_empty sample_key (Some [x01; x02]) []
           (mem_of [] None) good_tile); try reflexivity.
  - apply complete_sample.
  - exact servable_good_tile.
Defined.

Lemma Set_dispatch_witness :
  fst (exec (Set_ sample_key (Some good_tile) [false; true]) s_empty) = Ret tt /\
  CMetrics (cache (snd (exec (Set_ sample_key (Some good_tile) [false; true]) s_empty)))
    = CMetrics (cache s_empty) /\
  external (cache (snd (exec (Set_ sample_key (Some good_tile) [false; true]) s_empty)))
    = external (cache s_empty) /\
  spawned (snd (exec (Set_ sample_key (Some good_tile) [false; true]) s_empty))
    = [GoExternalSet sample_key (Some good_tile)] /\
  internal (cache (snd (exec (Set_ sample_key (Some good_tile) [false; true]) s_empty)))
    = Some (fst (bc_Set (mem_of [] None) sample_key (Some good_tile))).
Proof.
  apply (Set_dispatch s_empty sample_key (Some good_tile) [false; true]
           (fst (exec (Set_ sample_key (Some good_tile) [false; true]) s_empty))).
  - apply complete_sample.
  - reflexivity.
Defined.

Lemma Set_remote_round_trip_witness :
  exists s1 s2 s3,
    exec (Set_ sample_key (Some good_tile) []) s_remote_only = (Ret tt, s1) /\
    spawned s1 = [GoExternalSet sample_key (Some good_tile)] /\
    exec (run_task (GoExternalSet sample_key (Some good_tile))) s1 = (Ret tt, s2) /\
    exec (Fetch sample_key) s2 = (Ret (Some (Some good_tile)), s3) /\
    locals s3 !! "lod-cache" = Some " :hit-e".
Proof.
  apply (Set_remote_round_trip s_remote_only sample_key (Some good_tile) []
           (redis_of [] None) good_tile); try reflexivity.
  - exact servable_good_tile.
  - split; reflexivity.
Defined.

Lemma Invalidate_returns_first_error_witness :
  fst (exec (Invalidate sample_key) s_local_down) = Ret (Some timeout_err) /\
  external (cache (snd (exec (Invalidate sample_key) s_local_down))) =
    external (cache s_local_down).
Proof.
  assert (Hrun : exec (Invalidate sample_key) s_local_down =
                 (fst (exec (Invalidate sample_key) s_local_down),
                  snd (exec (Invalidate sample_key) s_local_down)))
    by reflexivity.
  apply (proj1 (Invalidate_returns_first_error s_local_down sample_key _ _ Hrun)
           (mem_of [] (Some timeout_err)) timeout_err);
    [reflexivity | reflexivity | reflexivity | discriminate].
Defined.

Lemma Invalidate_then_Fetch_misses_witness :
  exists s1 s2,
    exec (Invalidate sample_key) s_both = (Ret None, s1) /\
    exec (Fetch sample_key) s1 = (Ret None, s2) /\
    CMetrics (cache s2) = {| CacheHits := 0; CacheMisses := 1 |}.
Proof.
  apply (Invalidate_then_Fetch_misses s_both sample_key).
  - apply complete_sample.
  - apply deletes_take_effect_sample; reflexivity.
Defined.

Lemma Flush_is_local_only_witness :
  exec Flush s_no_tier = (Ret None, s_no_tier) /\
  exec Flush s_local_only =
    (Ret None, st_of (osm true false) (Some (mem_of [] None)) None) /\
  exists s1 s2,
    exec Flush s_both =
      (Ret (snd (bc_Reset (mem_of [(sample_key, good_tile)] None))), s1) /\
    external (cache s1) = Some (redis_of [(sample_key, good_tile)] None) /\
    exec (Fetch sample_key) s1 = (Ret (Some (Some good_tile)), s2) /\
    locals s2 !! "lod-cache" = Some " :hit-e".
Proof.
  split; [|split].
  - apply (proj1 (Flush_is_local_only s_no_tier sample_key)). reflexivity.
  - exact (proj1 (proj2 (Flush_is_local_only s_local_only sample_key))
             (mem_of [(sample_key, good_tile)] None) eq_refl eq_refl).
  - apply (proj2 (proj2 (proj2 (Flush_is_local_only s_both sample_key)))
             (mem_of [(sample_key, good_tile)] None)
             (redis_of [(sample_key, good_tile)] None) good_tile);
      try reflexivity.
    exact servable_good_tile.
Defined.


Lemma Get_leaves_the_rest_alone_witness :
  let g := proc_with (cache s_both) in
  let g' := snd (exec (Get "sat") g) in
  lock_free g' /\
  Proxies g' = Proxies g /\
  (forall n, n <> "sat" -> Caches g' !! n = Caches g !! n) /\
  (forall p c, heap g !! p = Some c -> heap g' !! p = Some c) /\
  (forall d, d ∈ registered g -> d ∈ registered g').
Proof.
  apply (Get_leaves_the_rest_alone (proc_with (cache s_both)) "sat"
           (fst (exec (Get "sat") (proc_with (cache s_both))))).
  - discriminate.
  - reflexivity.
Defined.

Lemma registry_ok_sample p i x :
  Name p = "osm" -> registry_ok (proc_with (cache (st_of p (Some i) (Some x)))).
Proof.
  intros Hn. split; [discriminate|].
  intros n a Hna. cbn [proc_with Caches] in Hna.
  apply lookup_singleton_Some in Hna as [<- <-].
  eexists. split; [reflexivity|]. split; [apply complete_sample|exact Hn].
Qed.

Lemma Get_keeps_registry_ok_witness :
  registry_ok (snd (exec (Get "osm") (proc_of [osm true true]))).
Proof.
  apply (Get_keeps_registry_ok (proc_of [osm true true]) "osm"
           (fst (exec (Get "osm") (proc_of [osm true true])))).
  - split; [discriminate|]. intros n a Hna.
    cbn [proc_of Caches] in Hna. rewrite lookup_empty in Hna. discriminate.
  - reflexivity.
Defined.

Lemma Get_unknown_name_is_not_remembered_witness :
  let g := proc_of [osm true true] in
  let g' := Get_repeated 2 "ghost" g in
  Caches g' = Caches g /\ heap g' = heap g /\
  registered g' = registered g /\
  plogs g' = (plogs g ++ replicate 2 (LogError ECacheName [AStr "ghost"]))%list /\
  fst (exec (Get "ghost") g') = Ret None.
Proof.
  apply (Get_unknown_name_is_not_remembered 2 (proc_of [osm true true]) "ghost").
  - discriminate.
  - reflexivity.
  - reflexivity.
Defined.

Lemma Get_builds_once_in_sequence_witness :
  let g1 := snd (exec (Get "osm") (proc_of [osm true true])) in
  Get_repeated 3 "osm" g1 = g1 /\
  exec (Get "osm") g1 = (Ret (Some 0%nat), g1).
Proof.
  apply (Get_builds_once_in_sequence (proc_of [osm true true]) "osm" 0%nat).
  - reflexivity.
  - reflexivity.
Defined.

Lemma concurrent_Get_after_build_witness :
  let g := proc_with (cache s_both) in
  snd (run_schedule "osm" [0; 2; 1; 0]%nat ([AtCheck; AtCheck; AtCheck], g)) = g /\
  Forall (fun t => t = AtCheck \/ t = Finished (Some 0%nat))
         (fst (run_schedule "osm" [0; 2; 1; 0]%nat ([AtCheck; AtCheck; AtCheck], g))).
Proof.
  apply (concurrent_Get_after_build (proc_with (cache s_both)) "osm" 0%nat).
  - reflexivity.
  - repeat constructor.
Defined.

Lemma handler_bad_request_witness :
  exists h',
    exec (handler (osm true true) bad_request) (h_of (proc_of [osm true true]))
      = (Ret None, h') /\
    resp_status (ctx h') = 400 /\
    ctx_locals (ctx h') !! "lod-cache" = Some " :err " /\
    resp_body (ctx h') = Some (list_byte_of_string "Bad Request") /\
    resp_headers (ctx h') = [] /\
    plogs (proc h') =
      [LogError EBadRequest [AStr "invalid tile coordinates"]] /\
    Caches (proc h') = ∅ /\
    heap (proc h') = [] /\
    registered (proc h') = [] /\
    cacheLock (proc h') = None /\
    pending h' = [].
Proof.
  apply (handler_bad_request (osm true true) bad_request
           (h_of (proc_of [osm true true])) ""
           (ErrOther "invalid tile coordinates")).
  reflexivity.
Defined.


Lemma handler_miss_witness :
  let h := h_of (proc_with (cache s_empty)) in
  let s' := snd (exec (Fetch sample_key) (fetch_state h (cache s_empty))) in
  let h' := snd (exec (handler (osm true true) sample_request) h) in
  ctx_locals (ctx h') !! "lod-cache" = Some " :miss" /\
  Caches (proc h') = Caches (proc h) /\
  heap (proc h') = <[0%nat := cache s']> (heap (proc h)) /\
  fst (exec (handler (osm true true) sample_request) h) = Ret None /\
  resp_body (ctx h') = Some png_body /\
  pending h' =
    (pending h ++ map (OfCache 0%nat) (spawned s') ++
     [GoEncodeSet (Some 0%nat) sample_key (Some png_body)
        [("Content-Type", "image/png")]])%list.
Proof.
  apply (handler_miss (osm true true) sample_request
           (h_of (proc_with (cache s_empty)))
           "https://ghost.example/1/2/3.png" 0%nat (cache s_empty)
           (snd (exec (Fetch sample_key)
                   (fetch_state (h_of (proc_with (cache s_empty))) (cache s_empty))))
           (fst (exec (handler (osm true true) sample_request)
                   (h_of (proc_with (cache s_empty))))));
    reflexivity.
Defined.

Lemma handler_keeps_registry_ok_witness :
  registry_ok
    (proc (snd (exec (handler (osm true true) sample_request)
                  (h_of (proc_with (cache s_both)))))).
Proof.
  apply (handler_keeps_registry_ok (osm true true) sample_request
           (h_of (proc_with (cache s_both)))
           (fst (exec (handler (osm true true) sample_request)
                   (h_of (proc_with (cache s_both)))))).
  - apply registry_ok_sample. reflexivity.
  - reflexivity.
Defined.

Lemma handler_miss_then_hit_witness :
  let h := h_of (proc_with (cache s_empty)) in
  let populate := GoEncodeSet (Some 0%nat) sample_key (Some png_body)
                    [("Content-Type", "image/png")] in
  exists h1 h2 h3,
    exec (handler (osm true true) sample_request) h = (Ret None, h1) /\
    resp_body (ctx h1) = Some png_body /\
    last (pending h1) = Some populate /\
    exec (run_ptask populate) h1 = (Ret tt, h2) /\
    exec (handler (osm true true) sample_request) (next_request fresh_ctx h2)
      = (Ret None, h3) /\
    resp_body (ctx h3) =
      go_append (resp_body fresh_ctx) (TileData (Some (marker :: png_body))) /\
    (len (resp_body fresh_ctx) = 0 ->
     bytes_of (resp_body (ctx h3)) = bytes_of (TileData (Some (marker :: png_body)))) /\
    resp_status (ctx h3) = resp_status fresh_ctx /\
    ctx_locals (ctx h3) !! "lod-cache" = Some " :hit ".
Proof.
  apply (handler_miss_then_hit (osm true true) sample_request
           (h_of (proc_with (cache s_empty)))
           "https://ghost.example/1/2/3.png" 0%nat (cache s_empty)
           (mem_of [] None) (Some png_body) (marker :: png_body) fresh_ctx);
    try reflexivity.
  - apply complete_sample.
  - right. eexists. split; reflexivity.
  - split; [discriminate | reflexivity].
Defined.
